(** * spellb: a Spelling-Bee word game (spellb.py)

    A shallow embedding of [spellb.py] and the properties of its letter
    pool, word list, scoring, command resolution and main loop.

    Python [str] values are lists of characters whose code points are below
    256 (one [ascii] per code point), Python [int] values are [Z], the
    [set] built by [validate_letter_pool] and [generate_letter_pool] is a
    [gset ascii], and everything the interpreter leaves open (the random
    module, the iteration order of a set) is a field of the [Runtime]
    class. *)

From Stdlib Require Import ZArith NArith Ascii String List Bool Lia.
From stdpp Require Import base tactics option list sets gmap strings.

Abbreviation str := (list ascii).

(** A Python string literal. *)
Definition py (s : string) : str := list_ascii_of_string s.

(* ===================================================================== *)
(** ** Characters *)
(* ===================================================================== *)

Definition ord (c : ascii) : N := N_of_ascii c.

Definition in_range (lo hi : N) (c : ascii) : bool :=
  ((lo <=? ord c) && (ord c <=? hi))%N.

(** The regular-expression classes [[a-z]], [[A-Z]] and [[aeiouy]]. *)
Definition is_az (c : ascii) : bool := in_range 97 122 c.
Definition is_AZ (c : ascii) : bool := in_range 65 90 c.
Definition is_aeiouy (c : ascii) : bool := bool_decide (c ∈ py "aeiouy").

(** [str.isascii], [str.isalpha], [str.isspace] and [str.lower] on one
    character with a code point below 256. *)
Definition isascii_char (c : ascii) : bool := (ord c <? 128)%N.

Definition isalpha_char (c : ascii) : bool :=
  in_range 65 90 c || in_range 97 122 c
  || (ord c =? 170)%N || (ord c =? 181)%N || (ord c =? 186)%N
  || in_range 192 214 c || in_range 216 246 c || in_range 248 255 c.

Definition isspace_char (c : ascii) : bool :=
  in_range 9 13 c || in_range 28 32 c || (ord c =? 133)%N || (ord c =? 160)%N.

Definition lower_char (c : ascii) : ascii :=
  if in_range 65 90 c || in_range 192 214 c || in_range 216 222 c
  then ascii_of_N (ord c + 32) else c.

(* ===================================================================== *)
(** ** Strings *)
(* ===================================================================== *)

Definition len (s : str) : Z := Z.of_nat (length s).

(** [s.isalpha()]: at least one character, all of them alphabetic. *)
Definition isalpha (s : str) : bool :=
  match s with [] => false | _ => forallb isalpha_char s end.

(** [s.isascii()]. *)
Definition isascii (s : str) : bool := forallb isascii_char s.

(** [s.lower()]. *)
Definition lower (s : str) : str := map lower_char s.

Fixpoint lstrip (s : str) : str :=
  match s with
  | c :: s' => if isspace_char c then lstrip s' else s
  | [] => []
  end.

Definition rstrip (s : str) : str := rev (lstrip (rev s)).

(** [s.strip()]. *)
Definition strip (s : str) : str := rstrip (lstrip s).

(** [c in s] for a one-character string [c]. *)
Definition char_in (c : ascii) (s : str) : bool := bool_decide (c ∈ s).

(** [s.startswith(p)]. *)
Fixpoint startswith (s p : str) {struct p} : bool :=
  match p, s with
  | [], _ => true
  | a :: p', b :: s' => bool_decide (a = b) && startswith s' p'
  | _ :: _, [] => false
  end.

(** [sep.join(l)]. *)
Fixpoint join (sep : str) (l : list str) : str :=
  match l with
  | [] => []
  | [x] => x
  | x :: l' => x ++ sep ++ join sep l'
  end.

Definition newline : ascii := "010"%char.

(** [re.match('^[cls]+$', s)] as a truth value.  Python's [$] matches at the
    end of the string and also just before a newline that ends the string. *)
Fixpoint re_match_plus (cls : ascii → bool) (s : str) : bool :=
  match s with
  | [] => false
  | c :: s' =>
      cls c &&
      match s' with
      | [] => true
      | _ => bool_decide (s' = [newline]) || re_match_plus cls s'
      end
  end.

(** [re.search('[cls]', s)] as a truth value. *)
Definition re_search (cls : ascii → bool) (s : str) : bool := existsb cls s.

(** [re.findall('[cls]', s)]. *)
Definition re_findall (cls : ascii → bool) (s : str) : list ascii :=
  List.filter cls s.

(* ===================================================================== *)
(** ** Exceptions and results *)
(* ===================================================================== *)

Inductive exn : Type :=
  | IndexError
  | ValueError
  | KeyError
  | SystemExit (code : Z).

Inductive result (A : Type) : Type :=
  | Ok (a : A)
  | Raise (e : exn).
Arguments Ok {A} a.
Arguments Raise {A} e.

(* ===================================================================== *)
(** ** Constants of the module *)
(* ===================================================================== *)

Record command : Type := Command {
  name : str;
  hidden : bool
}.

Definition COMMANDS : list command :=
  [ Command (py "cheat") true;
    Command (py "help") false;
    Command (py "list") false;
    Command (py "score") false;
    Command (py "show") false;
    Command (py "shuffle") false;
    Command (py "quit") false;
    Command (py "target") false ].

Definition ESC : ascii := "027"%char.
Definition GREEN : str := ESC :: py "[92m".
Definition YELLOW : str := ESC :: py "[93m".
Definition ENDCLR : str := ESC :: py "[0m".

(** The messages of [evaluate_word]; the spec calls them InvalidCharacters,
    CenterLetterMissing, TooShort, NotAWord and AlreadyFound. *)
Definition InvalidCharacters : str := py "Invalid characters in word".
Definition CenterLetterMissing : str := py "Center letter not used".
Definition TooShort : str := py "Too short".
Definition NotAWord : str := py "Invalid word".
Definition AlreadyFound : str := py "Already found".
Definition Pangram : str := GREEN ++ py "Pangram!" ++ ENDCLR.

(* ===================================================================== *)
(** ** The game object *)
(* ===================================================================== *)

Record SpellB : Type := mkSpellB {
  found_words : list str;
  letter_pool : str;
  score : Z;
  word_list : list str;
  best_possible_score : Z
}.

Definition set_found_words (fw : list str) (self : SpellB) : SpellB :=
  mkSpellB fw (letter_pool self) (score self) (word_list self)
           (best_possible_score self).

Definition set_letter_pool (p : str) (self : SpellB) : SpellB :=
  mkSpellB (found_words self) p (score self) (word_list self)
           (best_possible_score self).

Definition set_score (n : Z) (self : SpellB) : SpellB :=
  mkSpellB (found_words self) (letter_pool self) n (word_list self)
           (best_possible_score self).

Definition set_word_list (wl : list str) (self : SpellB) : SpellB :=
  mkSpellB (found_words self) (letter_pool self) (score self) wl
           (best_possible_score self).

Definition set_best_possible_score (n : Z) (self : SpellB) : SpellB :=
  mkSpellB (found_words self) (letter_pool self) (score self) (word_list self)
           n.

(** The attributes as [__init__] first sets them; [word_list] and
    [best_possible_score] get their values further down. *)
Definition new_game : SpellB := mkSpellB [] [] 0 [] 0.

(** [all(letter in word for letter in pool)]. *)
Definition uses_all (pool word : str) : bool :=
  forallb (λ letter, char_in letter word) pool.

(** [SpellB.evaluate_word].  [self.letter_pool[0]] raises [IndexError] on an
    empty pool; it is evaluated after the first test only. *)
Definition evaluate_word (self : SpellB) (word : str) : result (Z * str) :=
  if negb (re_match_plus is_az word) then Ok (0%Z, InvalidCharacters)
  else
    match letter_pool self with
    | [] => Raise IndexError
    | center :: _ =>
        if negb (char_in center word) then Ok (0%Z, CenterLetterMissing)
        else if (len word <? 4)%Z then Ok (0%Z, TooShort)
        else if negb (bool_decide (word ∈ word_list self))
             then Ok (0%Z, NotAWord)
        else if bool_decide (word ∈ found_words self)
             then Ok (0%Z, AlreadyFound)
        else
          let value := if (len word =? 4)%Z then 1%Z else len word in
          if (7 <=? len word)%Z && uses_all (letter_pool self) word
          then Ok ((value + 7)%Z, Pangram)
          else Ok (value, [])
    end.

(* ===================================================================== *)
(** ** What the interpreter leaves open *)
(* ===================================================================== *)

(** The state of the [random] module is a value of type [rng].
    [randint a b] is [random.randint(a, b)] for [a <= b],
    [sample l] is [random.sample(l, k=len(l))], and [set_order h s] is the
    order in which a set with members [s], built from the string [h], is
    iterated. *)
Class Runtime (rng : Type) : Type := {
  randint : Z → Z → rng → Z * rng;
  sample : list ascii → rng → list ascii * rng;
  set_order : str → gset ascii → list ascii;
  randint_range : ∀ a b g, (a ≤ b)%Z → (a ≤ (randint a b g).1 ≤ b)%Z;
  sample_perm : ∀ l g, (sample l g).1 ≡ₚ l;
  set_order_perm : ∀ h s, set_order h s ≡ₚ elements s
}.

(** A Python set of characters: its members, and the string it was built
    from (which only the iteration order may depend on). *)
Record pyset : Type := PySet {
  built_from : str;
  members : gset ascii
}.

(** [set(s)]. *)
Definition set_of (s : str) : pyset := PySet s (list_to_set s).

(** [len(ps)]. *)
Definition set_len (ps : pyset) : Z := Z.of_nat (size (members ps)).

(** [ps.remove(c)], which raises [KeyError] when [c] is not a member. *)
Definition set_remove (c : ascii) (ps : pyset) : result pyset :=
  if bool_decide (c ∈ members ps)
  then Ok (PySet (built_from ps) (members ps ∖ {[c]}))
  else Raise KeyError.

(** [l[i]] for a Python list and an integer index. *)
Definition getitem {A : Type} (l : list A) (i : Z) : result A :=
  let j := if (i <? 0)%Z then (Z.of_nat (length l) + i)%Z else i in
  if (j <? 0)%Z then Raise IndexError
  else match l !! Z.to_nat j with
       | Some x => Ok x
       | None => Raise IndexError
       end.

(** What the program writes to standard output.  The layout of the help
    text, of the letter hexagon and of the numbers is left out; the texts of
    the rejections are kept. *)
Inductive event : Type :=
  | PrintLine (text : str)
  | PrintHelp
  | PrintWelcome
  | DisplayLetterPool (pool : str)
  | PrintWordList (words : list str)
  | PrintFoundWords (words : list str)
  | PrintScore (n : Z)
  | PrintTarget (words : Z) (points : Z)
  | PrintResult (points : Z) (reason : str).

(** The text file behind [MASTER_WORD_LIST] as the successive results of
    [file.readline()]: each line with its newline, the last one maybe
    without.  [text] is the decoded text of the file, its line ends already
    translated to newlines as [open] in text mode does. *)
Fixpoint file_lines_from (cur : str) (text : str) : list str :=
  match text with
  | [] => match cur with [] => [] | _ => [rev cur] end
  | c :: text' =>
      if bool_decide (c = newline)
      then rev (c :: cur) :: file_lines_from [] text'
      else file_lines_from (c :: cur) text'
  end.

Definition file_lines (text : str) : list str := file_lines_from [] text.

(* ===================================================================== *)
(** ** Computations that print, raise and draw random numbers *)
(* ===================================================================== *)

(** A computation takes the state of the random module and gives what it
    printed and either a value with the new random state or an exception. *)
Definition M (rng A : Type) : Type := rng → list event * result (A * rng).

Definition ret {rng A} (a : A) : M rng A := λ g, ([], Ok (a, g)).

Definition bind {rng A B} (m : M rng A) (k : A → M rng B) : M rng B := λ g,
  match m g with
  | (out, Ok (a, g')) => let '(out', r) := k a g' in (out ++ out', r)
  | (out, Raise e) => (out, Raise e)
  end.

Definition raise {rng A} (e : exn) : M rng A := λ g, ([], Raise e).

Definition print {rng} (ev : event) : M rng unit := λ g, ([ev], Ok (tt, g)).

(** A computation that neither prints nor draws. *)
Definition lift {rng A} (r : result A) : M rng A := λ g,
  match r with
  | Ok a => ([], Ok (a, g))
  | Raise e => ([], Raise e)
  end.

Notation "'let!' x := m 'in' k" := (bind m (λ x, k))
  (at level 10, x pattern, m at level 200, k at level 200).
Notation "'do!' m 'in' k" := (bind m (λ _, k))
  (at level 10, m at level 200, k at level 200).

(** [sys.exit(code)]. *)
Definition sys_exit {rng A} (code : Z) : M rng A := raise (SystemExit code).

(** The texts printed by [validate_letter_pool] before [sys.exit(1)]; the
    spec calls the three failures InvalidCharacters, AmbiguousCenter and
    WrongLetterCount. *)
Definition PoolInvalidCharacters : str :=
  py "Invalid characters in letter pool. Only English letters are allowed of which at most one can be uppercase.".
Definition AmbiguousCenter : str :=
  py "Invalid letter pool format. At most one letter can be uppercase.".
Definition WrongLetterCount : str :=
  py "A letter pool must contain exactly seven unique letters.".

(** The texts printed by [execute_command] for a token it does not run. *)
Definition InvalidCommandText : str := py "Invalid command".
Definition AmbiguousCommandText (candidates : list str) : str :=
  py "Ambiguous command: " ++ join (py ", ") candidates.

(** The loop of [execute_command] that collects the candidate commands. *)
Fixpoint candidate_loop (commands : list command) (user_command : str)
    (candidate_commands : list str) : list str :=
  match commands with
  | [] => candidate_commands
  | command :: rest =>
      if negb (hidden command) then
        if startswith (name command) user_command
        then candidate_loop rest user_command
               (candidate_commands ++ [name command])
        else candidate_loop rest user_command candidate_commands
      else
        if bool_decide (name command = user_command)
        then [user_command]
        else candidate_loop rest user_command candidate_commands
  end.

(** What [execute_command] makes of the candidates: none is an invalid
    command, more than one an ambiguous command, and a single one is run. *)
Inductive resolution : Type :=
  | InvalidCommand
  | AmbiguousCommand (candidate_commands : list str)
  | Selected (chosen : str).

Definition resolve (commands : list command) (user_command : str)
    : resolution :=
  match candidate_loop commands user_command [] with
  | [] => InvalidCommand
  | [chosen] => Selected chosen
  | candidate_commands => AmbiguousCommand candidate_commands
  end.

(** The loop of [prepare_word_list].  [file.readline().strip()] is empty at
    the end of the file and on a line of white space only, and the loop
    stops there.  The character class [[{self.letter_pool}]] is read as the
    set of the pool's characters, which is what it means for a pool of
    letters. *)
Fixpoint prepare_loop (pool : str) (lines : list str) (word_list : list str)
    : result (list str) :=
  match lines with
  | [] => Ok word_list
  | line :: rest =>
      match strip line with
      | [] => Ok word_list
      | word =>
          if (len word <? 4)%Z then prepare_loop pool rest word_list
          else
            match pool with
            | [] => Raise IndexError
            | center :: _ =>
                if negb (char_in center word)
                then prepare_loop pool rest word_list
                else if negb (re_match_plus (λ c, char_in c pool) word)
                then prepare_loop pool rest word_list
                else if negb (re_search is_aeiouy word)
                then prepare_loop pool rest word_list
                else prepare_loop pool rest (word_list ++ [word])
            end
      end
  end.

(** The loop of [generate_letter_pool]; the candidates are sets. *)
Fixpoint generate_loop (lines : list str) (candidates : list pyset)
    : list pyset :=
  match lines with
  | [] => candidates
  | line :: rest =>
      match strip line with
      | [] => candidates
      | word =>
          if (len word <? 7)%Z then generate_loop rest candidates
          else if negb (set_len (set_of word) =? 7)%Z
          then generate_loop rest candidates
          else if negb (re_search is_aeiouy word)
          then generate_loop rest candidates
          else if re_search (λ c, negb (is_az c)) word
          then generate_loop rest candidates
          else generate_loop rest (candidates ++ [set_of word])
      end
  end.

(** The loop of [__init__] that adds up [best_possible_score]. *)
Fixpoint best_loop (self : SpellB) (words : list str) : result SpellB :=
  match words with
  | [] => Ok self
  | word :: rest =>
      match evaluate_word self word with
      | Ok (points, _) =>
          best_loop
            (set_best_possible_score (best_possible_score self + points) self)
            rest
      | Raise e => Raise e
      end
  end.

Section Game.
Context {rng : Type} `{!Runtime rng}.

Local Abbreviation M := (M rng).

(** [random.randint(a, b)], which raises [ValueError] on an empty range. *)
Definition random_randint (a b : Z) : M Z := λ g,
  if (b <? a)%Z then ([], Raise ValueError)
  else let '(i, g') := randint a b g in ([], Ok (i, g')).

(** [random.sample(l, k=len(l))]. *)
Definition random_sample (l : list ascii) : M (list ascii) := λ g,
  let '(l', g') := sample l g in ([], Ok (l', g')).

(** [list(ps)]. *)
Definition set_list (ps : pyset) : list ascii :=
  set_order (built_from ps) (members ps).

(** [SpellB.display_letter_pool]: it reads the seven letters at the
    indices 0 to 6. *)
Definition display_letter_pool (self : SpellB) : M unit :=
  if (length (letter_pool self) <? 7)%nat then raise IndexError
  else print (DisplayLetterPool (letter_pool self)).

(** [SpellB.generate_letter_pool], on the text of the word file. *)
Definition generate_letter_pool (self : SpellB) (text : str) : M SpellB :=
  let candidates := generate_loop (file_lines text) [] in
  let! i := random_randint 0 (Z.of_nat (length candidates) - 1) in
  let! chosen := lift (getitem candidates i) in
  let rnd_candidate := set_list chosen in
  let! pool := random_sample rnd_candidate in
  ret (set_letter_pool pool self).

(** [SpellB.validate_letter_pool]. *)
Definition validate_letter_pool (self : SpellB) (pool : str) : M SpellB :=
  if negb (isalpha pool) || negb (isascii pool) then
    do! print (PrintLine PoolInvalidCharacters) in sys_exit 1
  else
    let caps := re_findall is_AZ pool in
    if (1 <? length caps)%nat then
      do! print (PrintLine AmbiguousCenter) in sys_exit 1
    else
      let pool := lower pool in
      let! center := lift (match caps with
                           | cap :: _ => Ok (lower_char cap)
                           | [] => getitem pool 0
                           end) in
      let pool := set_of pool in
      if negb (set_len pool =? 7)%Z then
        do! print (PrintLine WrongLetterCount) in sys_exit 1
      else
        let! pool := lift (set_remove center pool) in
        ret (set_letter_pool (center :: set_list pool) self).

(** [SpellB.prepare_word_list], on the text of the word file. *)
Definition prepare_word_list (self : SpellB) (text : str) : M SpellB :=
  let! word_list := lift (prepare_loop (letter_pool self) (file_lines text) []) in
  ret (set_word_list word_list self).

(** [SpellB.__init__]; [pool] is the [--pool] argument, [None] without. *)
Definition init (pool : option str) (text : str) : M SpellB :=
  let self := new_game in
  let! self := match pool with
               | None | Some [] => generate_letter_pool self text
               | Some pool => validate_letter_pool self pool
               end in
  let! self := prepare_word_list self text in
  let! self := lift (best_loop (set_best_possible_score 0 self) (word_list self)) in
  do! print PrintWelcome in
  do! display_letter_pool self in
  ret self.

(** [SpellB.execute_command]. *)
Definition execute_command (self : SpellB) (user_command : str)
    : M SpellB :=
  match resolve COMMANDS user_command with
  | InvalidCommand => do! print (PrintLine InvalidCommandText) in ret self
  | AmbiguousCommand candidate_commands =>
      do! print (PrintLine (AmbiguousCommandText candidate_commands)) in ret self
  | Selected chosen =>
      if bool_decide (chosen = py "cheat") then
        do! print (PrintWordList (word_list self)) in ret self
      else if bool_decide (chosen = py "help") then
        do! print PrintHelp in ret self
      else if bool_decide (chosen = py "list") then
        do! print (PrintFoundWords (found_words self)) in ret self
      else if bool_decide (chosen = py "score") then
        do! print (PrintScore (score self)) in ret self
      else if bool_decide (chosen = py "show") then
        do! display_letter_pool self in ret self
      else if bool_decide (chosen = py "shuffle") then
        let! shuffled := random_sample (tail (letter_pool self)) in
        let! center := lift (getitem (letter_pool self) 0) in
        let self := set_letter_pool (center :: shuffled) self in
        do! display_letter_pool self in ret self
      else if bool_decide (chosen = py "quit") then
        sys_exit 0
      else if bool_decide (chosen = py "target") then
        do! print (PrintTarget (Z.of_nat (length (word_list self)))
                               (best_possible_score self)) in ret self
      else ret self
  end.

(** One turn of the loop of the main program on a line [user_input] that
    is already in lower case and not empty. *)
Definition loop_body (game : SpellB) (user_input : str) : M SpellB :=
  if startswith user_input (py ":") then
    execute_command game (tail user_input)
  else
    let! (points, reason) := lift (evaluate_word game user_input) in
    let game :=
      if (points =? 0)%Z then game
      else set_found_words (found_words game ++ [user_input])
             (set_score (score game + points) game) in
    do! print (PrintResult points reason) in ret game.

(** The loop of the main program on the lines that [input()] returns; at
    the end of the input [input()] raises [EOFError] and the program
    leaves with [sys.exit(0)], as it does on a keyboard interrupt.  An empty
    line ends the loop, and with it the program, with the game as value. *)
Fixpoint main_loop (game : SpellB) (inputs : list str) : M SpellB :=
  match inputs with
  | [] => sys_exit 0
  | line :: rest =>
      match lower line with
      | [] => ret game
      | user_input =>
          let! game := loop_body game user_input in
          main_loop game rest
      end
  end.

(** The main program, from the parsed [--pool] argument on.  [text] is the
    text that [open(MASTER_WORD_LIST)] and the reading of the file give; a
    word file that cannot be opened or decoded makes [open] or [readline]
    raise ([FileNotFoundError], [PermissionError], [UnicodeDecodeError]),
    which the program does not catch, and is not a case of this definition:
    what is proved of [main] is proved for a word file that was read. *)
Definition main (pool : option str) (text : str) (inputs : list str)
    : M SpellB :=
  let! game := init pool text in
  main_loop game inputs.

(** The games that the main loop goes through after [game0]: one turn
    for every line that is not empty. *)
Inductive plays (game0 : SpellB) : SpellB → Prop :=
  | plays_start : plays game0 game0
  | plays_turn (game game' : SpellB) (line : str) (g g' : rng)
      (out : list event) :
      plays game0 game →
      lower line ≠ [] →
      loop_body game (lower line) g = (out, Ok (game', g')) →
      plays game0 game'.

(** A line that the game rejects, with what the turn prints for it: a
    word that [evaluate_word] gives 0 points, a command token that no
    command matches, a command token that several commands match. *)
Inductive rejected (game : SpellB) (user_input : str) : event → Prop :=
  | rejected_word (reason : str) :
      startswith user_input (py ":") = false →
      evaluate_word game user_input = Ok (0%Z, reason) →
      rejected game user_input (PrintResult 0 reason)
  | rejected_invalid :
      startswith user_input (py ":") = true →
      resolve COMMANDS (tail user_input) = InvalidCommand →
      rejected game user_input (PrintLine InvalidCommandText)
  | rejected_ambiguous (candidate_commands : list str) :
      startswith user_input (py ":") = true →
      resolve COMMANDS (tail user_input)
        = AmbiguousCommand candidate_commands →
      rejected game user_input
        (PrintLine (AmbiguousCommandText candidate_commands)).

End Game.

(* ===================================================================== *)
(** ** A runtime to compute with *)
(* ===================================================================== *)

(** A runtime without chance: [randint a b] is [a], [sample] reverses, and a
    set is iterated in the order of [elements]. *)
Program Definition fixed_runtime : Runtime unit :=
  {| randint a b _ := (a, tt);
     sample l _ := (rev l, tt);
     set_order _ s := elements s |}.
Next Obligation. intros; simpl; lia. Qed.
Next Obligation. intros; simpl. symmetry. apply Permutation_rev. Qed.
Next Obligation. reflexivity. Qed.

(** The game of the spec's example: center [t], petals [a s e r i n]. *)
Definition taserin : SpellB :=
  mkSpellB [] (py "taserin") 0 [py "tears"; py "retains"; py "teat"] 0.

(** The spec's words for command resolution: a hidden command matches a
    token that is its full name, a visible command one that is a prefix of
    its name. *)
Definition hidden_match (commands : list command) (token : str) : bool :=
  existsb (λ c, hidden c && bool_decide (name c = token)) commands.

Definition visible_matches (commands : list command) (token : str)
    : list str :=
  map name
    (List.filter (λ c, negb (hidden c) && startswith (name c) token) commands).

(** The command set of the spec's example, and the one with a third
    command "hint". *)
Definition help_list : list command :=
  [ Command (py "help") false; Command (py "list") false ].

Definition help_list_hint : list command :=
  help_list ++ [ Command (py "hint") false ].

(** The letter pool of a game: seven different letters of [a-z], the
    center first. *)
Definition pool_ok (pool : str) : Prop :=
  length pool = 7%nat ∧ NoDup pool ∧ Forall (λ c, is_az c = true) pool.

(** Two pools with the same center and the same petals in some order. *)
Definition same_pool (pool pool' : str) : Prop :=
  head pool' = head pool ∧ tail pool' ≡ₚ tail pool.

(** A candidate of [generate_letter_pool]: seven members, all of [a-z]. *)
Definition candidate_ok (ps : pyset) : Prop :=
  size (members ps) = 7%nat ∧ ∀ c, c ∈ members ps → is_az c = true.

(** [evaluate_word(word)[0]] *)
Definition points (r : result (Z * str)) : Z :=
  match r with
  | Ok (value, _) => value
  | Raise _ => 0%Z
  end.

(** The sum of the points of [words], each evaluated with no found words. *)
Definition sum_points (self : SpellB) (words : list str) : Z :=
  foldr (λ word acc,
           (points (evaluate_word (set_found_words [] self) word) + acc)%Z)
        0%Z words.

(** Every word evaluates to a result, none raises. *)
Definition all_evaluate (self : SpellB) (words : list str) : Prop :=
  Forall (λ word, ∃ value message,
            evaluate_word (set_found_words [] self) word = Ok (value, message))
         words.

(** The word file of the examples, one word per line. *)
Definition example_dictionary : str :=
  join [newline]
    (map py ["tears"; "retains"; "Tea"; "sat"; "trains"; "zebra"; "stare"])
  ++ [newline].

(** The game that [__init__] builds for the pool [taserin] over the example
    word file under [fixed_runtime], and that game after the lines [Tears]
    and [:SHUFFLE]. *)
Definition example_words : list str :=
  [py "tears"; py "retains"; py "trains"; py "stare"].

Definition example_game0 : SpellB :=
  mkSpellB [] (py "tseianr") 0 example_words 30.

Definition example_game : SpellB :=
  mkSpellB [py "tears"] (py "trnaies") 5 example_words 30.

(** The entries of the word file: its lines without the white space around
    them. *)
Definition entries (text : str) : list str := map strip (file_lines text).

(** The entries before the first empty one. *)
Fixpoint before_blank (words : list str) : list str :=
  match words with
  | [] => []
  | [] :: _ => []
  | word :: rest => word :: before_blank rest
  end.

(** The spec's words for a playable word: at least 4 letters, the center
    letter among them, letters of the pool only, and a vowel or [y]. *)
Definition playable (pool word : str) : bool :=
  (4 <=? len word)%Z
  && match pool with center :: _ => char_in center word | [] => false end
  && forallb (λ c, char_in c pool) word
  && existsb is_aeiouy word.

(** A word file with an empty line in it. *)
Definition blank_line_dictionary : str :=
  py "tears" ++ [newline] ++ [newline] ++ py "retains" ++ [newline].

(** The five rejection texts of [evaluate_word]. *)
Definition rejections : list str :=
  [InvalidCharacters; CenterLetterMissing; TooShort; NotAWord; AlreadyFound].

(** What a game in play keeps: the found words are different words of the
    word list, and the score is the sum of what each of them earns on its
    own. *)
Definition game_ok (game : SpellB) : Prop :=
  NoDup (found_words game)
  ∧ (∀ word, word ∈ found_words game → word ∈ word_list game)
  ∧ score game = sum_points game (found_words game).

(** No visible command name is a prefix of another visible command name. *)
Definition prefix_free (commands : list command) : bool :=
  forallb (λ c1,
    forallb (λ c2,
      hidden c1 || hidden c2 || negb (startswith (name c2) (name c1))
      || bool_decide (name c1 = name c2)) commands) commands.

(** The names of the visible commands. *)
Definition visible_names (commands : list command) : list str :=
  map name (List.filter (λ c, negb (hidden c)) commands).

(** A word file without a candidate for a pool, and the game for a pool
    without a vowel. *)
Definition short_dictionary : str :=
  join [newline] (map py ["tears"; "sat"; "zebra"]) ++ [newline].

(** The word list that the loop builds on a pool with a center. *)
Definition solution (pool : str) (text : str) : list str :=
  List.filter (playable pool) (before_blank (entries text)).

(** The four tests of [generate_letter_pool] on a word: 7 letters or more,
    exactly 7 different ones, a vowel or [y], and letters of [a-z] only. *)
Definition is_candidate (word : str) : bool :=
  negb (len word <? 7)%Z
  && (set_len (set_of word) =? 7)%Z
  && re_search is_aeiouy word
  && negb (re_search (λ c, negb (is_az c)) word).

(** The game that [__init__] returns for the letter pool [pool] and the
    word file [text]. *)
Definition first_game (pool : str) (text : str) : SpellB :=
  let words := solution pool text in
  mkSpellB [] pool 0 words (sum_points (mkSpellB [] pool 0 words 0) words).

(** The games of the examples that start without a pool and with the pool
    [bcdfghj], under [fixed_runtime] and over the example word file. *)
Definition generated_game : SpellB :=
  mkSpellB [] (py "trnaies") 0 example_words 30.

Definition vowelless_game : SpellB :=
  mkSpellB [] (py "bgcfjdh") 0 [] 0.

(* ===================================================================== *)
(** * Properties *)
(* ===================================================================== *)

(** ** Strings and classes *)

(** Closed membership and equality facts are settled by computing their
    decision. *)
Ltac decide_by_computing :=
  match goal with
  | |- ¬ ?P => apply (bool_decide_eq_false_1 P); vm_compute; reflexivity
  | |- ?P => apply (bool_decide_eq_true_1 P); vm_compute; reflexivity
  end.

Lemma char_in_true (c : ascii) (s : str) : char_in c s = true ↔ c ∈ s.
Proof. unfold char_in. apply bool_decide_eq_true. Qed.

Lemma char_in_false (c : ascii) (s : str) : char_in c s = false ↔ c ∉ s.
Proof. unfold char_in. apply bool_decide_eq_false. Qed.

Lemma uses_all_true (pool word : str) :
  uses_all pool word = true ↔ ∀ c, c ∈ pool → c ∈ word.
Proof.
  unfold uses_all. rewrite forallb_forall. split.
  - intros H c Hc. apply char_in_true, H, list_elem_of_In, Hc.
  - intros H c Hc. apply char_in_true, H, list_elem_of_In, Hc.
Qed.

Lemma re_match_plus_body (cls : ascii → bool) (body tl : str) :
  body ≠ [] → Forall (λ c, cls c = true) body →
  tl = [] ∨ tl = [newline] →
  re_match_plus cls (body ++ tl) = true.
Proof.
  intros Hne Hall Htl. induction Hall as [|c body Hc Hall IH]; [done|].
  cbn [app re_match_plus]. rewrite Hc. simpl andb.
  destruct body as [|d body].
  - destruct Htl as [-> | ->]; reflexivity.
  - specialize (IH ltac:(done)). cbn [app] in *.
    rewrite IH, orb_true_r. reflexivity.
Qed.

(** [^[cls]+$] matches one character or more of the class, up to the end of
    the string or up to a newline that ends it. *)
Lemma re_match_plus_true (cls : ascii → bool) (s : str) :
  re_match_plus cls s = true
  ↔ ∃ body, body ≠ [] ∧ Forall (λ c, cls c = true) body
            ∧ (s = body ∨ s = body ++ [newline]).
Proof.
  split.
  - induction s as [|c s IH]; [discriminate|].
    cbn [re_match_plus]. intros H. apply andb_true_iff in H as [Hc H].
    destruct s as [|d s].
    { exists [c]. split; [done|]. split; [by constructor|by left]. }
    apply orb_true_iff in H as [H|H].
    + apply bool_decide_eq_true in H. exists [c].
      split; [done|]. split; [by constructor|]. right. by rewrite H.
    + destruct (IH H) as (body & Hne & Hall & Hs).
      exists (c :: body). split; [done|]. split; [by constructor|].
      destruct Hs as [-> | ->]; [by left|by right].
  - intros (body & Hne & Hall & [-> | ->]).
    + rewrite <- (app_nil_r body). apply re_match_plus_body; auto.
    + apply re_match_plus_body; auto.
Qed.

Example evaluate_tears :
  evaluate_word taserin (py "tears") = Ok (5%Z, []).
Proof. vm_compute. reflexivity. Qed.

Example evaluate_retains :
  evaluate_word taserin (py "retains") = Ok (14%Z, Pangram).
Proof. vm_compute. reflexivity. Qed.

Example evaluate_teat :
  evaluate_word taserin (py "teat") = Ok (1%Z, []).
Proof. vm_compute. reflexivity. Qed.

(** ** evaluate_word *)

(** The tests of [evaluate_word] read only the pool, the word list and the
    found words. *)
Lemma evaluate_word_ext (self self' : SpellB) (word : str) :
  letter_pool self = letter_pool self' →
  word_list self = word_list self' →
  found_words self = found_words self' →
  evaluate_word self word = evaluate_word self' word.
Proof. unfold evaluate_word. intros -> -> ->. reflexivity. Qed.

(** A word that passes the first four tests and was not found before is
    accepted with at least one point. *)
Lemma evaluate_word_accepts (self : SpellB) (word : str) center petals :
  letter_pool self = center :: petals →
  re_match_plus is_az word = true →
  center ∈ word →
  (4 ≤ len word)%Z →
  word ∈ word_list self →
  word ∉ found_words self →
  ∃ points message,
    evaluate_word self word = Ok (points, message) ∧ (0 < points)%Z.
Proof.
  intros Hp Hm Hc Hl Hw Hf. unfold evaluate_word.
  rewrite Hm, Hp. simpl negb. cbv iota.
  apply char_in_true in Hc. rewrite Hc. simpl negb. cbv iota.
  destruct (Z.ltb_spec (len word) 4) as [?|_]; [lia|].
  rewrite (bool_decide_eq_true_2 _ Hw). simpl negb. cbv iota.
  rewrite (bool_decide_eq_false_2 _ Hf).
  destruct (_ && _); eexists _, _; (split; [reflexivity|]);
    destruct (Z.eqb_spec (len word) 4); lia.
Qed.

(** With no found words, no word is rejected as already found. *)
Lemma evaluate_word_empty_history (self : SpellB) (word : str) :
  found_words self = [] →
  evaluate_word self word ≠ Ok (0%Z, AlreadyFound).
Proof.
  intros Hf. unfold evaluate_word. rewrite Hf.
  destruct (negb (re_match_plus is_az word)); [discriminate|].
  destruct (letter_pool self) as [|center petals]; [discriminate|].
  destruct (negb (char_in center word)); [discriminate|].
  destruct (Z.ltb_spec (len word) 4) as [|Hl]; [discriminate|].
  destruct (negb (bool_decide (word ∈ word_list self))); [discriminate|].
  rewrite bool_decide_eq_false_2 by apply not_elem_of_nil.
  destruct (_ && _); intros [= Hv _]; destruct (Z.eqb_spec (len word) 4); lia.
Qed.

(** C1 (as amended).  [evaluate_word] applies its five rejections in the
    order of the source, each with 0 points and its own message: a word that
    does not match [^[a-z]+$] has invalid characters; else a word without
    the center letter misses it; else a word shorter than 4 is too short;
    else a word outside the word list is not a word; else a word among the
    found words is already found.  A word that passes the first four tests
    scores with an empty history, and with itself as the history it is
    rejected as already found. *)
Theorem evaluate_word_checks_in_order
    (self : SpellB) (word : str) (center : ascii) (petals : str) :
  letter_pool self = center :: petals →
  (re_match_plus is_az word = false →
     evaluate_word self word = Ok (0%Z, InvalidCharacters))
  ∧ (re_match_plus is_az word = true → center ∉ word →
     evaluate_word self word = Ok (0%Z, CenterLetterMissing))
  ∧ (re_match_plus is_az word = true → center ∈ word → (len word < 4)%Z →
     evaluate_word self word = Ok (0%Z, TooShort))
  ∧ (re_match_plus is_az word = true → center ∈ word → (4 ≤ len word)%Z →
     word ∉ word_list self →
     evaluate_word self word = Ok (0%Z, NotAWord))
  ∧ (re_match_plus is_az word = true → center ∈ word → (4 ≤ len word)%Z →
     word ∈ word_list self → word ∈ found_words self →
     evaluate_word self word = Ok (0%Z, AlreadyFound))
  ∧ (re_match_plus is_az word = true → center ∈ word → (4 ≤ len word)%Z →
     word ∈ word_list self →
     (∃ points message,
        evaluate_word (set_found_words [] self) word = Ok (points, message)
        ∧ (0 < points)%Z)
     ∧ evaluate_word (set_found_words [word] self) word
       = Ok (0%Z, AlreadyFound)).
Proof.
  intros Hp.
  assert (Hfive : ∀ s : SpellB, letter_pool s = center :: petals →
            re_match_plus is_az word = true → center ∈ word →
            (4 ≤ len word)%Z → word ∈ word_list s → word ∈ found_words s →
            evaluate_word s word = Ok (0%Z, AlreadyFound)).
  { intros s Hs Hm Hc Hl Hw Hf. unfold evaluate_word. rewrite Hm, Hs.
    apply char_in_true in Hc. rewrite Hc. simpl negb. cbv iota.
    destruct (Z.ltb_spec (len word) 4) as [?|_]; [lia|].
    rewrite (bool_decide_eq_true_2 _ Hw), (bool_decide_eq_true_2 _ Hf).
    reflexivity. }
  repeat split.
  - intros Hm. unfold evaluate_word. rewrite Hm. reflexivity.
  - intros Hm Hc. unfold evaluate_word. rewrite Hm, Hp.
    apply char_in_false in Hc. rewrite Hc. reflexivity.
  - intros Hm Hc Hl. unfold evaluate_word. rewrite Hm, Hp.
    apply char_in_true in Hc. rewrite Hc. simpl negb. cbv iota.
    destruct (Z.ltb_spec (len word) 4) as [_|?]; [reflexivity|lia].
  - intros Hm Hc Hl Hw. unfold evaluate_word. rewrite Hm, Hp.
    apply char_in_true in Hc. rewrite Hc. simpl negb. cbv iota.
    destruct (Z.ltb_spec (len word) 4) as [?|_]; [lia|].
    rewrite (bool_decide_eq_false_2 _ Hw). reflexivity.
  - intros Hm Hc Hl Hw Hf. by apply Hfive.
  - eapply evaluate_word_accepts; eauto. simpl. apply not_elem_of_nil.
  - apply Hfive; auto. simpl. apply list_elem_of_singleton. reflexivity.
Qed.

(** The rejections at work on the example game. *)
Lemma evaluate_word_checks_in_order_witness :
  evaluate_word taserin (py "Tears") = Ok (0%Z, InvalidCharacters)
  ∧ evaluate_word taserin (py "ear") = Ok (0%Z, CenterLetterMissing)
  ∧ evaluate_word taserin (py "tea") = Ok (0%Z, TooShort)
  ∧ evaluate_word taserin (py "treat") = Ok (0%Z, NotAWord)
  ∧ evaluate_word (set_found_words [py "tears"] taserin) (py "tears")
    = Ok (0%Z, AlreadyFound).
Proof.
  pose proof (evaluate_word_checks_in_order taserin (py "Tears")
                "t"%char (py "aserin") eq_refl) as (H1 & _).
  pose proof (evaluate_word_checks_in_order taserin (py "ear")
                "t"%char (py "aserin") eq_refl) as (_ & H2 & _).
  pose proof (evaluate_word_checks_in_order taserin (py "tea")
                "t"%char (py "aserin") eq_refl) as (_ & _ & H3 & _).
  pose proof (evaluate_word_checks_in_order taserin (py "treat")
                "t"%char (py "aserin") eq_refl) as (_ & _ & _ & H4 & _).
  pose proof (evaluate_word_checks_in_order taserin (py "tears")
                "t"%char (py "aserin") eq_refl) as (_ & _ & _ & _ & _ & H6).
  split; [apply H1; reflexivity|].
  split; [apply H2; [reflexivity | decide_by_computing]|].
  split; [apply H3; [reflexivity | decide_by_computing | reflexivity]|].
  split.
  - apply H4; [reflexivity | decide_by_computing | discriminate
               | decide_by_computing].
  - apply H6; [reflexivity | decide_by_computing | discriminate
               | decide_by_computing].
Defined.

(** C1 as the spec states it does not hold: a word that an earlier test
    rejects is never reported as already found, also when it is the whole
    history. *)
Lemma already_found_counterexample :
  evaluate_word (set_found_words [py "tea"] taserin) (py "tea")
    = Ok (0%Z, TooShort)
  ∧ ¬ (∀ (self : SpellB) (w : str),
         evaluate_word (set_found_words [w] self) w = Ok (0%Z, AlreadyFound)).
Proof.
  split; [reflexivity|].
  intros H. specialize (H taserin (py "tea")). discriminate H.
Qed.

(** C2.  A word that passes all five tests scores 1 point when it has 4
    letters and its length when it has more; when it has 7 letters or more
    and every letter of the pool occurs in it, 7 points are added and the
    message is the Pangram annotation; a word of 7 letters that misses a
    letter of the pool scores 7. *)
Theorem evaluate_word_points
    (self : SpellB) (word : str) (center : ascii) (petals : str) :
  letter_pool self = center :: petals →
  re_match_plus is_az word = true →
  center ∈ word →
  (4 ≤ len word)%Z →
  word ∈ word_list self →
  word ∉ found_words self →
  let pangram :=
    (7 ≤ len word)%Z ∧ ∀ c, c ∈ letter_pool self → c ∈ word in
  (pangram → evaluate_word self word = Ok ((len word + 7)%Z, Pangram))
  ∧ (¬ pangram → len word = 4%Z → evaluate_word self word = Ok (1%Z, []))
  ∧ (¬ pangram → (4 < len word)%Z →
     evaluate_word self word = Ok (len word, []))
  ∧ (len word = 7%Z → (∃ c, c ∈ letter_pool self ∧ c ∉ word) →
     evaluate_word self word = Ok (7%Z, []))
  ∧ (∃ before after, Pangram = before ++ py "Pangram!" ++ after).
Proof.
  intros Hp Hm Hc Hl Hw Hf pangram.
  assert (Hev : evaluate_word self word =
            let value := if (len word =? 4)%Z then 1%Z else len word in
            if (7 <=? len word)%Z && uses_all (letter_pool self) word
            then Ok ((value + 7)%Z, Pangram) else Ok (value, [])).
  { unfold evaluate_word. rewrite Hm, Hp. simpl negb. cbv iota.
    apply char_in_true in Hc. rewrite Hc. simpl negb. cbv iota.
    destruct (Z.ltb_spec (len word) 4) as [?|_]; [lia|].
    rewrite (bool_decide_eq_true_2 _ Hw), (bool_decide_eq_false_2 _ Hf).
    reflexivity. }
  assert (Hpan : (7 <=? len word)%Z && uses_all (letter_pool self) word = true
                 ↔ pangram).
  { unfold pangram. rewrite andb_true_iff, Z.leb_le, uses_all_true.
    reflexivity. }
  assert (not_pangram : ¬ pangram →
            (7 <=? len word)%Z && uses_all (letter_pool self) word = false).
  { intros H. apply not_true_is_false. intros E. apply H, Hpan, E. }
  rewrite Hev. cbv zeta. repeat split.
  - intros H. rewrite (proj2 Hpan H). destruct H as [H7 _].
    destruct (Z.eqb_spec (len word) 4); [lia|reflexivity].
  - intros H H4. rewrite (not_pangram H), H4. reflexivity.
  - intros H H4. rewrite (not_pangram H).
    destruct (Z.eqb_spec (len word) 4); [lia|reflexivity].
  - intros H7 (c & Hin & Hout). rewrite not_pangram, H7; [reflexivity|].
    intros [_ E]. destruct Hout. by apply E.
  - exists GREEN, ENDCLR. reflexivity.
Qed.

(** The spec's example: "retains" uses all of [t a s e r i n] and scores
    7 + 7. *)
Lemma evaluate_word_points_witness :
  evaluate_word taserin (py "retains") = Ok (14%Z, Pangram).
Proof.
  refine (proj1 (evaluate_word_points taserin (py "retains")
                   "t"%char (py "aserin") eq_refl eq_refl _ _ _ _) _).
  - decide_by_computing.
  - discriminate.
  - decide_by_computing.
  - decide_by_computing.
  - split; [discriminate|]. apply uses_all_true. reflexivity.
Defined.

(** ** Command resolution *)

Lemma startswith_prefix (s p : str) : startswith s p = true ↔ p `prefix_of` s.
Proof.
  revert s. induction p as [|a p IH]; intros s; simpl.
  - split; [intros _; apply prefix_nil | reflexivity].
  - destruct s as [|b s].
    + split; [discriminate|]. intros H. by apply prefix_nil_not in H.
    + rewrite andb_true_iff, bool_decide_eq_true, IH. split.
      * intros [-> H]. by apply prefix_cons.
      * intros H. split; [by apply prefix_cons_inv_1 in H
                         | by apply prefix_cons_inv_2 in H].
Qed.

Lemma hidden_match_true (commands : list command) (token : str) :
  hidden_match commands token = true
  ↔ ∃ c, c ∈ commands ∧ hidden c = true ∧ name c = token.
Proof.
  unfold hidden_match. rewrite existsb_exists. split.
  - intros (c & Hin & H). apply andb_true_iff in H as [Hh Hn].
    apply bool_decide_eq_true in Hn. exists c.
    by rewrite list_elem_of_In.
  - intros (c & Hin & Hh & Hn). exists c. rewrite <- list_elem_of_In.
    split; [done|]. rewrite Hh. simpl. by apply bool_decide_eq_true.
Qed.

Lemma visible_matches_elem (commands : list command) (token c : str) :
  c ∈ visible_matches commands token
  ↔ ∃ cmd, cmd ∈ commands ∧ hidden cmd = false ∧ name cmd = c
           ∧ token `prefix_of` c.
Proof.
  unfold visible_matches. rewrite list_elem_of_fmap. split.
  - intros (cmd & -> & Hin). apply list_elem_of_In, filter_In in Hin.
    destruct Hin as [Hin H]. apply andb_true_iff in H as [Hh Hs].
    exists cmd. rewrite list_elem_of_In. repeat split; try done.
    + by apply negb_true_iff.
    + by apply startswith_prefix.
  - intros (cmd & Hin & Hh & <- & Hp). exists cmd. split; [done|].
    apply list_elem_of_In, filter_In. rewrite <- list_elem_of_In.
    split; [done|]. rewrite Hh. simpl. by apply startswith_prefix.
Qed.

(** The loop with its [break], read as a whole. *)
Lemma candidate_loop_spec (commands : list command) (token : str)
    (candidates : list str) :
  candidate_loop commands token candidates
  = if hidden_match commands token then [token]
    else candidates ++ visible_matches commands token.
Proof.
  revert candidates.
  induction commands as [|c commands IH]; intros candidates.
  - simpl. by rewrite app_nil_r.
  - unfold hidden_match, visible_matches in *. simpl.
    destruct (hidden c); simpl.
    + destruct (bool_decide (name c = token)); simpl; [done|]. apply IH.
    + destruct (startswith (name c) token); simpl; rewrite IH;
        destruct (existsb _ commands); try done.
      by rewrite <- app_assoc.
Qed.

Lemma resolve_spec (commands : list command) (token : str) :
  resolve commands token
  = if hidden_match commands token then Selected token
    else match visible_matches commands token with
         | [] => InvalidCommand
         | [chosen] => Selected chosen
         | candidates => AmbiguousCommand candidates
         end.
Proof.
  unfold resolve. rewrite candidate_loop_spec.
  destruct (hidden_match commands token); reflexivity.
Qed.

(** C7.  Resolution of a token against a command set: a token that is the
    full name of a hidden command selects it; otherwise the candidates are
    the names of the visible commands of which the token is a prefix, in the
    order of the command set, and none of them is an invalid command, one
    selects that command, more than one is an ambiguous command listing them
    all.  In [COMMANDS] the hidden command "cheat" is selected by its full
    name only.  With the commands help and list, "h" selects help, "l"
    selects list and "x" is invalid; with hint as third command "h" is
    ambiguous between help and hint. *)
Theorem command_resolution (commands : list command) (token : str) :
  (hidden_match commands token = true
   ↔ ∃ c, c ∈ commands ∧ hidden c = true ∧ name c = token)
  ∧ (∀ c, c ∈ visible_matches commands token
        ↔ ∃ cmd, cmd ∈ commands ∧ hidden cmd = false ∧ name cmd = c
                 ∧ token `prefix_of` c)
  ∧ (hidden_match commands token = true →
     resolve commands token = Selected token)
  ∧ (hidden_match commands token = false →
     visible_matches commands token = [] →
     resolve commands token = InvalidCommand)
  ∧ (∀ chosen, hidden_match commands token = false →
     visible_matches commands token = [chosen] →
     resolve commands token = Selected chosen)
  ∧ (hidden_match commands token = false →
     (1 < length (visible_matches commands token))%nat →
     resolve commands token
     = AmbiguousCommand (visible_matches commands token))
  ∧ (resolve COMMANDS token = Selected (py "cheat") ↔ token = py "cheat")
  ∧ resolve help_list (py "h") = Selected (py "help")
  ∧ resolve help_list (py "l") = Selected (py "list")
  ∧ resolve help_list (py "x") = InvalidCommand
  ∧ resolve help_list_hint (py "h")
    = AmbiguousCommand [py "help"; py "hint"].
Proof.
  split; [apply hidden_match_true|].
  split; [intros c; apply visible_matches_elem|].
  split; [intros H; by rewrite resolve_spec, H|].
  split; [intros H E; by rewrite resolve_spec, H, E|].
  split; [intros chosen H E; by rewrite resolve_spec, H, E|].
  split.
  { intros H E. rewrite resolve_spec, H.
    destruct (visible_matches commands token) as [|x [|y l]]; simpl in E;
      [lia | lia | reflexivity]. }
  split; [|repeat split; reflexivity].
  split.
  - rewrite resolve_spec. destruct (hidden_match COMMANDS token) eqn:Hh.
    + apply hidden_match_true in Hh as (c & Hin & Hc & Hn).
      intros _. subst token.
      unfold COMMANDS in Hin. repeat (apply elem_of_cons in Hin as [->|Hin]);
        try discriminate Hc; try reflexivity.
      by apply elem_of_nil in Hin.
    + intros H.
      assert (Hin : py "cheat" ∈ visible_matches COMMANDS token).
      { destruct (visible_matches COMMANDS token) as [|x [|y l]];
          try discriminate H.
        injection H as ->. apply list_elem_of_singleton. reflexivity. }
      apply visible_matches_elem in Hin as (cmd & Hin & Hv & Hn & _).
      unfold COMMANDS in Hin. repeat (apply elem_of_cons in Hin as [->|Hin]);
        try discriminate Hv; try discriminate Hn.
      by apply elem_of_nil in Hin.
  - intros ->. reflexivity.
Qed.

(** The prefixes of the game's own commands. *)
Lemma command_resolution_witness :
  resolve COMMANDS (py "cheat") = Selected (py "cheat")
  ∧ resolve COMMANDS (py "che") = InvalidCommand
  ∧ resolve COMMANDS (py "sc") = Selected (py "score")
  ∧ resolve COMMANDS (py "s")
    = AmbiguousCommand [py "score"; py "show"; py "shuffle"].
Proof.
  pose proof (command_resolution COMMANDS (py "cheat"))
    as (_ & _ & H1 & _).
  pose proof (command_resolution COMMANDS (py "che"))
    as (_ & _ & _ & H2 & _).
  pose proof (command_resolution COMMANDS (py "sc"))
    as (_ & _ & _ & _ & H3 & _).
  pose proof (command_resolution COMMANDS (py "s"))
    as (_ & _ & _ & _ & _ & H4 & _).
  split; [apply H1; reflexivity|].
  split; [apply H2; reflexivity|].
  split; [apply H3; reflexivity|].
  apply H4; [reflexivity | vm_compute; lia].
Defined.

(** C10.  The empty token, the line [:], is a prefix of every visible
    command name: its candidates are all the visible commands, so it is an
    ambiguous command and never an invalid one, and the turn prints the
    list of all visible names and leaves the game as it was. *)
Theorem empty_token_is_ambiguous (commands : list command) :
  visible_matches commands []
    = map name (List.filter (λ c, negb (hidden c)) commands)
  ∧ resolve COMMANDS []
    = AmbiguousCommand
        [py "help"; py "list"; py "score"; py "show"; py "shuffle";
         py "quit"; py "target"]
  ∧ resolve COMMANDS [] ≠ InvalidCommand
  ∧ (∀ (rng : Type) (R : Runtime rng) (game : SpellB) (g : rng),
       loop_body game (py ":") g
       = ([PrintLine (py "Ambiguous command: help, list, score, show, shuffle, quit, target")],
          Ok (game, g))).
Proof.
  split.
  { unfold visible_matches. f_equal. apply filter_ext. intros c.
    by rewrite andb_true_r. }
  split; [reflexivity|]. split; [discriminate|].
  intros rng R game g. reflexivity.
Qed.

(** ** Computations *)

Lemma bind_Ok {rng A B} (m : M rng A) (k : A → M rng B) g out b g' :
  bind m k g = (out, Ok (b, g')) →
  ∃ a g1 out1 out2,
    m g = (out1, Ok (a, g1)) ∧ k a g1 = (out2, Ok (b, g'))
    ∧ out = out1 ++ out2.
Proof.
  unfold bind. destruct (m g) as [out1 [[a g1]|e]]; [|discriminate].
  destruct (k a g1) as [out2 r] eqn:E. intros [= <- ->].
  by exists a, g1, out1, out2.
Qed.

Lemma lift_Ok {rng A} (r : result A) (g : rng) out a g' :
  lift r g = (out, Ok (a, g')) → r = Ok a ∧ g' = g ∧ out = [].
Proof. unfold lift. destruct r; [|discriminate]. by intros [= <- <- <-]. Qed.

Lemma print_Ok {rng} (ev : event) (g : rng) out u g' :
  print ev g = (out, Ok (u, g')) → g' = g ∧ out = [ev].
Proof. unfold print. by intros [= <- <-]. Qed.

Lemma ret_Ok {rng A} (a : A) (g : rng) out b g' :
  ret a g = (out, Ok (b, g')) → b = a ∧ g' = g ∧ out = [].
Proof. unfold ret. by intros [= <- <- <-]. Qed.

(** Take a successful computation apart, one step after the other. *)
Ltac invert_run H :=
  repeat match type of H with
  | bind _ _ _ = (_, Ok _) =>
      let a := fresh "a" in let g1 := fresh "g" in
      let o1 := fresh "out" in let o2 := fresh "out" in
      let H1 := fresh "Hrun" in let Ho := fresh "Hout" in
      apply bind_Ok in H as (a & g1 & o1 & o2 & H1 & H & Ho)
  | ret _ _ = (_, Ok _) =>
      apply ret_Ok in H as (? & ? & ?)
  end.

Section GameProperties.
Context {rng : Type} `{!Runtime rng}.

(** ** Rejections *)

(** C6.  A rejected line changes nothing: for a word that [evaluate_word]
    gives 0 points, and for a command token that resolves to an invalid or
    an ambiguous command, the turn returns the very same game (score,
    found words, letter pool, word list and best possible score) and
    random state, having printed one message; and the main loop goes on
    with the rest of the input from that same game. *)
Theorem rejection_is_noop (game : SpellB) (user_input : str) (ev : event)
    (g : rng) :
  rejected game user_input ev →
  loop_body game user_input g = ([ev], Ok (game, g))
  ∧ ∀ (line : str) (rest : list str),
      lower line = user_input → user_input ≠ [] →
      main_loop game (line :: rest) g
      = (ev :: (main_loop game rest g).1, (main_loop game rest g).2).
Proof.
  intros Hrej.
  assert (Hbody : loop_body game user_input g = ([ev], Ok (game, g))).
  { unfold loop_body, execute_command.
    destruct Hrej as [reason Hs He | Hs Hr | cands Hs Hr].
    - rewrite Hs. unfold bind at 1. rewrite He. reflexivity.
    - rewrite Hs, Hr. reflexivity.
    - rewrite Hs, Hr. reflexivity. }
  split; [exact Hbody|].
  intros line rest Hl Hne. simpl. rewrite Hl.
  destruct user_input as [|c u]; [done|].
  unfold bind at 1. rewrite Hbody.
  destruct (main_loop game rest g) as [out r]. reflexivity.
Qed.

End GameProperties.

(** A word that is too short, in the example game. *)
Lemma rejection_is_noop_witness :
  @loop_body unit fixed_runtime taserin (py "tea") tt
  = ([PrintResult 0 TooShort], Ok (taserin, tt)).
Proof.
  refine (proj1 (@rejection_is_noop unit fixed_runtime taserin (py "tea")
                   (PrintResult 0 TooShort) tt _)).
  apply rejected_word; reflexivity.
Defined.

(** ** Characters *)

Ltac ascii_cases c :=
  destruct c as [[] [] [] [] [] [] [] []]; vm_compute.

Lemma lower_char_alpha_ascii (c : ascii) :
  isalpha_char c = true → isascii_char c = true → is_az (lower_char c) = true.
Proof. ascii_cases c; intros; first [reflexivity | discriminate]. Qed.

Lemma lower_char_az (c : ascii) : is_az c = true → lower_char c = c.
Proof. ascii_cases c; intros; first [reflexivity | discriminate]. Qed.

Lemma isalpha_char_az (c : ascii) : is_az c = true → isalpha_char c = true.
Proof. ascii_cases c; intros; first [reflexivity | discriminate]. Qed.

Lemma isascii_char_az (c : ascii) : is_az c = true → isascii_char c = true.
Proof. ascii_cases c; intros; first [reflexivity | discriminate]. Qed.

Lemma is_AZ_az (c : ascii) : is_az c = true → is_AZ c = false.
Proof. ascii_cases c; intros; first [reflexivity | discriminate]. Qed.

Lemma isspace_char_az (c : ascii) : is_az c = true → isspace_char c = false.
Proof. ascii_cases c; intros; first [reflexivity | discriminate]. Qed.

Lemma alpha_ascii_char (c : ascii) :
  isalpha_char c && isascii_char c = is_AZ c || is_az c.
Proof. ascii_cases c; reflexivity. Qed.

(** "Alphabetic ASCII": at least one character, and letters of [A-Z] and
    [a-z] only. *)
Lemma isalpha_isascii (s : str) :
  isalpha s && isascii s = true
  ↔ s ≠ [] ∧ Forall (λ c, is_AZ c = true ∨ is_az c = true) s.
Proof.
  assert (H : forallb isalpha_char s && forallb isascii_char s = true
              ↔ Forall (λ c, is_AZ c = true ∨ is_az c = true) s).
  { induction s as [|c s IH]; simpl.
    - split; [constructor|reflexivity].
    - rewrite Forall_cons, <- IH, <- orb_true_iff, <- alpha_ascii_char.
      rewrite !andb_true_iff. tauto. }
  unfold isalpha, isascii. destruct s as [|c s].
  - simpl. split; [discriminate|]. by intros [? _].
  - rewrite H. split; [intros ?; split; [discriminate|done] | by intros [_ ?]].
Qed.

Lemma lower_az (s : str) : Forall (λ c, is_az c = true) s → lower s = s.
Proof.
  unfold lower. induction 1 as [|c s Hc _ IH]; simpl; [done|].
  by rewrite lower_char_az, IH.
Qed.

Lemma lower_alpha_ascii (s : str) (c : ascii) :
  isalpha s && isascii s = true → c ∈ lower s → is_az c = true.
Proof.
  intros H Hc. apply isalpha_isascii in H as [_ H].
  unfold lower in Hc. apply list_elem_of_fmap in Hc as (c' & -> & Hc').
  rewrite Forall_forall in H. specialize (H c' Hc').
  rewrite <- orb_true_iff, <- alpha_ascii_char in H.
  apply andb_true_iff in H as [? ?]. by apply lower_char_alpha_ascii.
Qed.

Lemma re_findall_AZ_az (s : str) :
  Forall (λ c, is_az c = true) s → re_findall is_AZ s = [].
Proof.
  unfold re_findall. induction 1 as [|c s Hc _ IH]; simpl; [done|].
  by rewrite (is_AZ_az c Hc).
Qed.

(** ** Sets *)

Lemma set_of_elem (s : str) (c : ascii) : c ∈ members (set_of s) ↔ c ∈ s.
Proof. unfold set_of. simpl. apply elem_of_list_to_set. Qed.

Section PoolProperties.
Context {rng : Type} `{!Runtime rng}.

Lemma set_list_perm (ps : pyset) : set_list ps ≡ₚ elements (members ps).
Proof. apply set_order_perm. Qed.

Lemma set_list_elem (ps : pyset) (c : ascii) :
  c ∈ set_list ps ↔ c ∈ members ps.
Proof. by rewrite set_list_perm, elem_of_elements. Qed.

Lemma set_list_NoDup (ps : pyset) : NoDup (set_list ps).
Proof. rewrite set_list_perm. apply NoDup_elements. Qed.

Lemma set_list_length (ps : pyset) :
  Z.of_nat (length (set_list ps)) = set_len ps.
Proof. unfold set_len. by rewrite set_list_perm. Qed.

(** ** validate_letter_pool *)

(** The pool that [validate_letter_pool] stores for an accepted input. *)
Lemma validate_letter_pool_accepts (self : SpellB) (pool : str) (g : rng) :
  isalpha pool && isascii pool = true →
  (length (re_findall is_AZ pool) ≤ 1)%nat →
  size (list_to_set (lower pool) : gset ascii) = 7%nat →
  ∃ center petals,
    validate_letter_pool self pool g
    = ([], Ok (set_letter_pool (center :: petals) self, g))
    ∧ (∀ cap, re_findall is_AZ pool = [cap] → center = lower_char cap)
    ∧ (re_findall is_AZ pool = [] → head (lower pool) = Some center)
    ∧ length petals = 6%nat
    ∧ NoDup (center :: petals)
    ∧ (∀ c, c ∈ center :: petals ↔ c ∈ lower pool).
Proof.
  intros Ha Hcaps Hsize.
  assert (Hne : pool ≠ []) by (by apply isalpha_isascii in Ha as [? _]).
  pose (center := match re_findall is_AZ pool with
                  | cap :: _ => lower_char cap
                  | [] => match lower pool with c :: _ => c | [] => newline end
                  end).
  assert (Hcenter : match re_findall is_AZ pool with
                    | cap :: _ => Ok (lower_char cap)
                    | [] => getitem (lower pool) 0
                    end = Ok center).
  { subst center. destruct (re_findall is_AZ pool); [|done].
    destruct pool as [|c pool]; [done|]. reflexivity. }
  assert (Hin : center ∈ lower pool).
  { subst center. destruct (re_findall is_AZ pool) as [|cap caps] eqn:E.
    - destruct pool as [|c pool]; [done|]. simpl. left.
    - unfold lower. apply list_elem_of_fmap. exists cap. split; [done|].
      assert (H : cap ∈ re_findall is_AZ pool) by (rewrite E; left).
      unfold re_findall in H. apply list_elem_of_In, filter_In in H.
      apply list_elem_of_In, H. }
  set (ps := PySet (lower pool) (list_to_set (lower pool) ∖ {[center]})).
  exists center, (set_list ps).
  assert (Hmem : ∀ c, c ∈ set_list ps ↔ c ∈ lower pool ∧ c ≠ center).
  { intros c. rewrite set_list_elem. subst ps. simpl.
    rewrite elem_of_difference, elem_of_list_to_set, elem_of_singleton.
    done. }
  split; [|split; [|split; [|split; [|split]]]].
  - unfold validate_letter_pool.
    apply andb_true_iff in Ha as [Ha1 Ha2]. rewrite Ha1, Ha2. simpl.
    destruct (Nat.ltb_spec 1 (length (re_findall is_AZ pool))); [lia|].
    rewrite Hcenter. unfold bind at 1, lift at 1.
    unfold set_len, set_of. cbn [members]. rewrite Hsize. simpl.
    unfold set_remove. cbn [members].
    rewrite bool_decide_eq_true_2 by (by apply elem_of_list_to_set).
    unfold bind, lift, ret. simpl. reflexivity.
  - intros cap E. subst center. by rewrite E.
  - intros E. subst center. rewrite E.
    destruct pool as [|c pool]; [done|]. reflexivity.
  - apply Nat2Z.inj. rewrite set_list_length. unfold set_len. subst ps.
    cbn [members]. rewrite size_difference.
    + rewrite Hsize, size_singleton. reflexivity.
    + apply singleton_subseteq_l. by apply elem_of_list_to_set.
  - apply NoDup_cons. split; [|apply set_list_NoDup].
    rewrite Hmem. by intros [_ ?].
  - intros c. rewrite elem_of_cons, Hmem. split.
    + intros [->|[? _]]; done.
    + intros Hc. destruct (decide (c = center)); [by left|by right].
Qed.

(** The three ways in which [validate_letter_pool] leaves the program. *)
Lemma validate_letter_pool_rejects (self : SpellB) (pool : str) (g : rng) :
  (isalpha pool && isascii pool = false →
   validate_letter_pool self pool g
   = ([PrintLine PoolInvalidCharacters], Raise (SystemExit 1)))
  ∧ (isalpha pool && isascii pool = true →
     (1 < length (re_findall is_AZ pool))%nat →
     validate_letter_pool self pool g
     = ([PrintLine AmbiguousCenter], Raise (SystemExit 1)))
  ∧ (isalpha pool && isascii pool = true →
     (length (re_findall is_AZ pool) ≤ 1)%nat →
     size (list_to_set (lower pool) : gset ascii) ≠ 7%nat →
     validate_letter_pool self pool g
     = ([PrintLine WrongLetterCount], Raise (SystemExit 1))).
Proof.
  unfold validate_letter_pool. repeat split.
  - intros Ha. apply andb_false_iff in Ha as [->| ->]; simpl;
      [|rewrite orb_true_r]; reflexivity.
  - intros Ha Hc. apply andb_true_iff in Ha as [-> ->]. simpl.
    destruct (Nat.ltb_spec 1 (length (re_findall is_AZ pool))); [|lia].
    reflexivity.
  - intros Ha Hc Hs. pose proof Ha as Ha'.
    apply andb_true_iff in Ha as [-> ->]. simpl.
    destruct (Nat.ltb_spec 1 (length (re_findall is_AZ pool))); [lia|].
    assert (Hcenter : ∃ center, match re_findall is_AZ pool with
                      | cap :: _ => Ok (lower_char cap)
                      | [] => getitem (lower pool) 0
                      end = Ok center).
    { destruct (re_findall is_AZ pool); [|by eexists].
      apply isalpha_isascii in Ha' as [Hne _].
      destruct pool as [|c pool]; [done|]. by eexists. }
    destruct Hcenter as [center ->]. unfold bind at 1, lift at 1.
    unfold set_len, set_of. cbn [members].
    destruct (Z.eqb_spec (Z.of_nat (size (list_to_set (lower pool)
                                           : gset ascii))) 7); [lia|].
    reflexivity.
Qed.

Lemma validate_letter_pool_Ok (self self' : SpellB) (pool : str) (g g' : rng)
    (out : list event) :
  validate_letter_pool self pool g = (out, Ok (self', g')) →
  isalpha pool && isascii pool = true
  ∧ (length (re_findall is_AZ pool) ≤ 1)%nat
  ∧ size (list_to_set (lower pool) : gset ascii) = 7%nat.
Proof.
  intros H.
  destruct (validate_letter_pool_rejects self pool g) as (R1 & R2 & R3).
  destruct (isalpha pool && isascii pool) eqn:Ha;
    [|rewrite R1 in H by done; discriminate].
  destruct (le_lt_dec (length (re_findall is_AZ pool)) 1) as [Hc|Hc];
    [|rewrite R2 in H by done; discriminate].
  destruct (decide (size (list_to_set (lower pool) : gset ascii) = 7%nat))
    as [Hs|Hs]; [done|].
  rewrite R3 in H by done. discriminate.
Qed.

(** An accepted input gives a pool of seven different letters of [a-z]. *)
Lemma validate_letter_pool_pool_ok (self self' : SpellB) (pool : str)
    (g g' : rng) (out : list event) :
  validate_letter_pool self pool g = (out, Ok (self', g')) →
  pool_ok (letter_pool self').
Proof.
  intros H. pose proof (validate_letter_pool_Ok _ _ _ _ _ _ H)
    as (Ha & Hc & Hs).
  destruct (validate_letter_pool_accepts self pool g Ha Hc Hs)
    as (center & petals & E & _ & _ & Hl & Hnd & Hel).
  rewrite E in H. injection H as _ <- _. simpl.
  split; [simpl; by rewrite Hl|]. split; [done|].
  apply Forall_forall. intros c Hin. apply Hel in Hin.
  by eapply lower_alpha_ascii.
Qed.

(** A pool of seven different letters of [a-z] is accepted as it is, up to
    the order of its petals. *)
Lemma validate_letter_pool_of_pool_ok (self : SpellB) (center : ascii)
    (petals : str) (g : rng) :
  pool_ok (center :: petals) →
  ∃ petals',
    validate_letter_pool self (center :: petals) g
    = ([], Ok (set_letter_pool (center :: petals') self, g))
    ∧ petals' ≡ₚ petals.
Proof.
  intros (Hlen & Hnd & Haz).
  assert (Hlow : lower (center :: petals) = center :: petals)
    by (by apply lower_az).
  assert (Hcaps : re_findall is_AZ (center :: petals) = []).
  { by apply re_findall_AZ_az. }
  destruct (validate_letter_pool_accepts self (center :: petals) g)
    as (center' & petals' & E & _ & Hhead & Hl & Hnd' & Hel).
  - apply isalpha_isascii. split; [done|].
    eapply Forall_impl; [exact Haz|]. intros c Hc. by right.
  - rewrite Hcaps. simpl. lia.
  - rewrite Hlow, size_list_to_set by done. exact Hlen.
  - rewrite Hlow in Hhead, Hel. specialize (Hhead Hcaps).
    injection Hhead as <-. exists petals'. split; [done|].
    apply NoDup_cons in Hnd as [Hc Hnd]. apply NoDup_cons in Hnd' as [Hc' Hnd'].
    apply NoDup_Permutation; [done|done|].
    intros c. specialize (Hel c). rewrite !elem_of_cons in Hel.
    split; intros Hin.
    + destruct (proj1 Hel (or_intror Hin)) as [->|?]; done.
    + destruct (proj2 Hel (or_intror Hin)) as [->|?]; done.
Qed.

(** A failure of [validate_letter_pool] ends the main program before the
    first turn. *)
Lemma main_validate_fails (pool text : str) (inputs : list str) (g : rng)
    (out : list event) (e : exn) :
  pool ≠ [] →
  validate_letter_pool new_game pool g = (out, Raise e) →
  main (Some pool) text inputs g = (out, Raise e).
Proof.
  intros Hne H. destruct pool as [|c pool]; [done|].
  unfold main, init. unfold bind at 1 2. by rewrite H.
Qed.

(** C5.  [validate_letter_pool] on an input [pool]: an input that is not
    alphabetic ASCII (empty, or with a character outside [A-Za-z]) fails
    with the invalid-characters text; else an input with more than one
    upper-case letter fails with the ambiguous-center text; else an input
    whose lower-case form does not have exactly 7 different characters
    fails with the wrong-letter-count text; else the stored pool is the
    center (the lower-case form of the one upper-case letter, or else the
    first character) followed by the 6 other letters.  Each failure is
    [sys.exit(1)], and the main program ends with it before any turn. *)
Theorem validate_letter_pool_cases (self : SpellB) (pool : str) (g : rng) :
  let caps := re_findall is_AZ pool in
  let distinct := size (list_to_set (lower pool) : gset ascii) in
  (isalpha pool && isascii pool = true
   ↔ pool ≠ [] ∧ Forall (λ c, is_AZ c = true ∨ is_az c = true) pool)
  ∧ (isalpha pool && isascii pool = false →
     validate_letter_pool self pool g
     = ([PrintLine PoolInvalidCharacters], Raise (SystemExit 1)))
  ∧ (isalpha pool && isascii pool = true → (1 < length caps)%nat →
     validate_letter_pool self pool g
     = ([PrintLine AmbiguousCenter], Raise (SystemExit 1)))
  ∧ (isalpha pool && isascii pool = true → (length caps ≤ 1)%nat →
     distinct ≠ 7%nat →
     validate_letter_pool self pool g
     = ([PrintLine WrongLetterCount], Raise (SystemExit 1)))
  ∧ (isalpha pool && isascii pool = true → (length caps ≤ 1)%nat →
     distinct = 7%nat →
     ∃ center petals,
       validate_letter_pool self pool g
       = ([], Ok (set_letter_pool (center :: petals) self, g))
       ∧ (∀ cap, caps = [cap] → center = lower_char cap)
       ∧ (caps = [] → head (lower pool) = Some center)
       ∧ length petals = 6%nat
       ∧ NoDup (center :: petals)
       ∧ (∀ c, c ∈ center :: petals ↔ c ∈ lower pool))
  ∧ (∀ out e,
       validate_letter_pool new_game pool g = (out, Raise e) →
       e = SystemExit 1
       ∧ (pool ≠ [] → ∀ text inputs,
            main (Some pool) text inputs g = (out, Raise (SystemExit 1)))).
Proof.
  intros caps distinct.
  destruct (validate_letter_pool_rejects self pool g) as (R1 & R2 & R3).
  split; [apply isalpha_isascii|].
  split; [exact R1|]. split; [exact R2|]. split; [exact R3|].
  split; [apply validate_letter_pool_accepts|].
  intros out e H.
  assert (He : e = SystemExit 1).
  { destruct (validate_letter_pool_rejects new_game pool g)
      as (N1 & N2 & N3).
    destruct (isalpha pool && isascii pool) eqn:Ha;
      [|rewrite N1 in H by done; congruence].
    destruct (le_lt_dec (length (re_findall is_AZ pool)) 1) as [Hc|Hc];
      [|rewrite N2 in H by done; congruence].
    destruct (decide (size (list_to_set (lower pool) : gset ascii) = 7%nat))
      as [Hs|Hs]; [|rewrite N3 in H by done; congruence].
    destruct (validate_letter_pool_accepts new_game pool g Ha Hc Hs)
      as (center & petals & E & _). rewrite E in H. discriminate. }
  split; [exact He|]. subst e. intros Hne text inputs.
  by apply main_validate_fails.
Qed.

(** C8.  The pool that [validate_letter_pool] stores is itself accepted:
    validating it again succeeds, prints nothing, and stores a pool with
    the same center and the same petals, in some order. *)
Theorem validate_letter_pool_idempotent (self self' self2 : SpellB)
    (pool : str) (g g' g2 : rng) (out : list event) :
  validate_letter_pool self pool g = (out, Ok (self', g')) →
  ∃ center petals petals2,
    letter_pool self' = center :: petals
    ∧ validate_letter_pool self2 (letter_pool self') g2
      = ([], Ok (set_letter_pool (center :: petals2) self2, g2))
    ∧ petals2 ≡ₚ petals
    ∧ length (center :: petals2) = 7%nat
    ∧ NoDup (center :: petals2)
    ∧ (∀ c, c ∈ center :: petals2 ↔ c ∈ letter_pool self').
Proof.
  intros H. pose proof (validate_letter_pool_pool_ok _ _ _ _ _ _ H) as Hok.
  destruct (letter_pool self') as [|center petals] eqn:E.
  { destruct Hok as [Hlen _]. discriminate Hlen. }
  destruct (validate_letter_pool_of_pool_ok self2 center petals g2 Hok)
    as (petals2 & Hv & Hperm).
  exists center, petals, petals2.
  destruct Hok as (Hlen & Hnd & _).
  split; [done|]. split; [done|]. split; [done|].
  split; [simpl in *; by rewrite Hperm|].
  split; [by rewrite Hperm|]. intros c. by rewrite Hperm.
Qed.

End PoolProperties.

(** The input [tasErin] has center [e]. *)
Lemma validate_letter_pool_cases_witness :
  ∃ petals,
    @validate_letter_pool unit fixed_runtime new_game (py "tasErin") tt
    = ([], Ok (set_letter_pool ("e"%char :: petals) new_game, tt))
    ∧ length petals = 6%nat.
Proof.
  destruct (@validate_letter_pool_cases unit fixed_runtime new_game
              (py "tasErin") tt) as (_ & _ & _ & _ & H & _).
  destruct H as (center & petals & E & Hcap & _ & Hlen & _).
  - reflexivity.
  - vm_compute. lia.
  - reflexivity.
  - exists petals. rewrite (Hcap "E"%char eq_refl) in E. by split.
Defined.

(** C5 as the spec states it does not hold: an input with more than one
    upper-case letter fails with the ambiguous-center text only when it is
    alphabetic ASCII.  The input [AB1cdef] has two upper-case letters and a
    digit, and the first test of [validate_letter_pool] refuses it with the
    invalid-characters text. *)
Lemma ambiguous_center_counterexample :
  (1 < length (re_findall is_AZ (py "AB1cdef")))%nat
  ∧ @validate_letter_pool unit fixed_runtime new_game (py "AB1cdef") tt
    = ([PrintLine PoolInvalidCharacters], Raise (SystemExit 1))
  ∧ ¬ (∀ pool : str,
         (1 < length (re_findall is_AZ pool))%nat →
         @validate_letter_pool unit fixed_runtime new_game pool tt
         = ([PrintLine AmbiguousCenter], Raise (SystemExit 1))).
Proof.
  split; [vm_compute; lia|]. split; [reflexivity|].
  intros H. specialize (H (py "AB1cdef")).
  assert (Hc : (1 < length (re_findall is_AZ (py "AB1cdef")))%nat)
    by (vm_compute; lia).
  specialize (H Hc). discriminate H.
Qed.

(** Validating [tasErin] and then its result. *)
Lemma validate_letter_pool_idempotent_witness :
  ∃ center petals petals2,
    py "esianrt" = center :: petals
    ∧ @validate_letter_pool unit fixed_runtime new_game (py "esianrt") tt
      = ([], Ok (set_letter_pool (center :: petals2) new_game, tt))
    ∧ petals2 ≡ₚ petals.
Proof.
  destruct (@validate_letter_pool_idempotent unit fixed_runtime
              new_game (set_letter_pool (py "esianrt") new_game) new_game
              (py "tasErin") tt tt tt [])
    as (center & petals & petals2 & E & Hv & Hp & _).
  - vm_compute. reflexivity.
  - by exists center, petals, petals2.
Defined.

(** ** Pools *)

Lemma same_pool_refl (pool : str) : same_pool pool pool.
Proof. by split. Qed.

Lemma same_pool_trans (p1 p2 p3 : str) :
  same_pool p1 p2 → same_pool p2 p3 → same_pool p1 p3.
Proof. intros [H1 H2] [H3 H4]. split; [congruence | by rewrite H4]. Qed.

Lemma same_pool_perm (pool pool' : str) : same_pool pool pool' → pool' ≡ₚ pool.
Proof.
  intros [Hh Ht]. destruct pool as [|c t], pool' as [|c' t']; try done.
  simpl in *. injection Hh as ->. by rewrite Ht.
Qed.

Lemma pool_ok_same_pool (pool pool' : str) :
  pool_ok pool → same_pool pool pool' → pool_ok pool'.
Proof.
  intros (Hl & Hn & Hz) Hs. apply same_pool_perm in Hs.
  unfold pool_ok. by rewrite Hs.
Qed.

(** [evaluate_word] does not depend on the order of the petals. *)
Lemma evaluate_word_same_pool (self self' : SpellB) (word : str) :
  same_pool (letter_pool self) (letter_pool self') →
  word_list self = word_list self' →
  found_words self = found_words self' →
  evaluate_word self word = evaluate_word self' word.
Proof.
  intros Hs Hw Hf. pose proof (same_pool_perm _ _ Hs) as Hp.
  destruct Hs as [Hh _]. unfold evaluate_word. rewrite Hw, Hf.
  assert (Hu : uses_all (letter_pool self) word
               = uses_all (letter_pool self') word).
  { apply eq_true_iff_eq. rewrite !uses_all_true.
    by setoid_rewrite Hp. }
  rewrite Hu.
  destruct (letter_pool self) as [|c t], (letter_pool self') as [|c' t'];
    try done.
  simpl in Hh. by injection Hh as ->.
Qed.

Lemma getitem_Ok {A : Type} (l : list A) (i : Z) (x : A) :
  getitem l i = Ok x → x ∈ l.
Proof.
  unfold getitem. destruct (_ <? 0)%Z; [discriminate|].
  destruct (l !! _) eqn:E; [|discriminate].
  intros [= <-]. by eapply list_elem_of_lookup_2.
Qed.

Lemma getitem_0 {A : Type} (l : list A) (x : A) :
  getitem l 0 = Ok x ↔ head l = Some x.
Proof. destruct l; unfold getitem; simpl; split; congruence. Qed.

Lemma generate_loop_ok (lines : list str) (candidates : list pyset) :
  Forall candidate_ok candidates →
  Forall candidate_ok (generate_loop lines candidates).
Proof.
  revert candidates. induction lines as [|line lines IH]; intros cands H.
  - exact H.
  - cbn [generate_loop]. destruct (strip line) as [|c w] eqn:E; [exact H|].
    set (word := c :: w) in *.
    destruct (len word <? 7)%Z; [by apply IH|].
    destruct (negb (set_len (set_of word) =? 7)%Z) eqn:H7; [by apply IH|].
    destruct (negb (re_search is_aeiouy word)); [by apply IH|].
    destruct (re_search (λ c0, negb (is_az c0)) word) eqn:Hs; [by apply IH|].
    apply negb_false_iff, Z.eqb_eq in H7.
    apply IH, Forall_app. split; [exact H|]. apply Forall_singleton. split.
    + unfold set_len in H7. lia.
    + intros x Hx. apply set_of_elem in Hx.
      unfold re_search in Hs.
      destruct (is_az x) eqn:Hz; [done|].
      assert (existsb (λ c0, negb (is_az c0)) word = true); [|congruence].
      apply existsb_exists. exists x. rewrite <- list_elem_of_In.
      by rewrite Hz.
Qed.

Section InvariantProperties.
Context {rng : Type} `{!Runtime rng}.

Lemma random_sample_Ok (l l' : list ascii) (g g' : rng) (out : list event) :
  random_sample l g = (out, Ok (l', g')) → l' ≡ₚ l ∧ out = [].
Proof.
  unfold random_sample. pose proof (sample_perm l g) as Hp.
  destruct (sample l g) as [l0 g0]. intros [= <- <- <-]. by split.
Qed.

Lemma display_letter_pool_Ok (self : SpellB) (g g' : rng)
    (out : list event) (u : unit) :
  display_letter_pool self g = (out, Ok (u, g')) →
  g' = g ∧ out = [DisplayLetterPool (letter_pool self)].
Proof.
  unfold display_letter_pool. destruct (_ <? 7)%nat; [discriminate|].
  by intros [= <- <-].
Qed.

Lemma display_letter_pool_ok (self : SpellB) (g : rng) :
  pool_ok (letter_pool self) →
  display_letter_pool self g
  = ([DisplayLetterPool (letter_pool self)], Ok (tt, g)).
Proof.
  intros [Hl _]. unfold display_letter_pool. by rewrite Hl.
Qed.

(** A generated pool has seven different letters of [a-z], and nothing
    else of the game changes. *)
Lemma generate_letter_pool_Ok (self self' : SpellB) (text : str)
    (g g' : rng) (out : list event) :
  generate_letter_pool self text g = (out, Ok (self', g')) →
  pool_ok (letter_pool self')
  ∧ self' = set_letter_pool (letter_pool self') self ∧ out = [].
Proof.
  unfold generate_letter_pool. intros H. invert_run H. subst.
  unfold random_randint in Hrun.
  destruct (_ <? 0)%Z; [discriminate|].
  destruct (randint _ _ g) as [i gi]. injection Hrun as <- <- <-.
  apply lift_Ok in Hrun0 as (Hget & -> & ->).
  apply random_sample_Ok in Hrun1 as [Hperm ->].
  split; [|done]. simpl.
  apply getitem_Ok in Hget.
  pose proof (generate_loop_ok (file_lines text) [] (Forall_nil_2 _)) as Hc.
  rewrite Forall_forall in Hc. destruct (Hc _ Hget) as [H7 Haz].
  unfold pool_ok. rewrite Hperm. split; [|split].
  - apply Nat2Z.inj. rewrite set_list_length. unfold set_len. lia.
  - apply set_list_NoDup.
  - apply Forall_forall. intros c Hin. by apply Haz, set_list_elem.
Qed.

(** [generate_letter_pool] gives a pool as soon as the word file has a
    candidate. *)
Lemma generate_letter_pool_total (self : SpellB) (text : str) (g : rng) :
  generate_loop (file_lines text) [] ≠ [] →
  ∃ pool g', generate_letter_pool self text g
             = ([], Ok (set_letter_pool pool self, g')).
Proof.
  intros Hne. unfold generate_letter_pool.
  set (cands := generate_loop (file_lines text) []) in *.
  assert (Hlen : (0 < length cands)%nat).
  { destruct cands; [done|simpl; lia]. }
  pose proof (randint_range 0 (Z.of_nat (length cands) - 1) g) as Hr.
  unfold bind at 1, random_randint at 1.
  destruct (Z.ltb_spec (Z.of_nat (length cands) - 1) 0) as [?|_]; [lia|].
  destruct (randint _ _ g) as [i gi]. simpl in Hr.
  assert (Hi : (0 ≤ i ≤ Z.of_nat (length cands) - 1)%Z) by (apply Hr; lia).
  assert (Hget : ∃ chosen, getitem cands i = Ok chosen).
  { unfold getitem. destruct (Z.ltb_spec i 0) as [?|_]; [lia|].
    destruct (Z.ltb_spec i 0) as [?|_]; [lia|].
    destruct (cands !! Z.to_nat i) eqn:E; [by eexists|].
    apply lookup_ge_None in E. lia. }
  destruct Hget as [chosen Hget]. rewrite Hget.
  unfold bind, lift, random_sample, ret.
  destruct (sample (set_list chosen) gi) as [pool g'].
  by exists pool, g'.
Qed.

End InvariantProperties.

(** ** The main loop *)

Lemma best_loop_Ok (self self' : SpellB) (words : list str) :
  found_words self = [] →
  best_loop self words = Ok self' →
  self' = set_best_possible_score
            (best_possible_score self + sum_points self words) self
  ∧ all_evaluate self words.
Proof.
  revert self. induction words as [|word words IH]; intros self Hf; simpl.
  - intros [= <-]. split; [|constructor].
    destruct self. unfold set_best_possible_score. simpl. f_equal. lia.
  - assert (Hext : evaluate_word (set_found_words [] self) word
                   = evaluate_word self word).
    { apply evaluate_word_ext; simpl; congruence. }
    rewrite Hext.
    destruct (evaluate_word self word) as [[value message]|e] eqn:E;
      [|discriminate].
    intros H. apply IH in H as [-> Hall]; [|exact Hf].
    assert (Hsum : ∀ n, sum_points (set_best_possible_score n self) words
                        = sum_points self words).
    { intros n. unfold sum_points. apply foldr_ext; [|done|done].
      intros w acc. reflexivity. }
    split.
    + rewrite Hsum. unfold set_best_possible_score. simpl. f_equal. lia.
    + constructor; [by eexists _, _|].
      eapply Forall_impl; [exact Hall|]. simpl.
      intros w (v & m & Hw). exists v, m. rewrite <- Hw.
      by apply evaluate_word_ext.
Qed.

(** Computing the decisions between command names. *)
Ltac decide_commands :=
  repeat match goal with
  | |- context [@bool_decide (?a = ?b) ?d] =>
      let v := eval vm_compute in (@bool_decide (a = b) d) in
      change (@bool_decide (a = b) d) with v
  end; cbv iota.

Section LoopProperties.
Context {rng : Type} `{!Runtime rng}.

Ltac invert_step :=
  match goal with
  | H : bind _ _ _ = (_, Ok _) |- _ =>
      apply bind_Ok in H as (? & ? & ? & ? & ? & ? & ?)
  | H : ret _ _ = (_, Ok _) |- _ => apply ret_Ok in H as (? & ? & ?)
  | H : print _ _ = (_, Ok _) |- _ => apply print_Ok in H as (? & ?)
  | H : lift _ _ = (_, Ok _) |- _ => apply lift_Ok in H as (? & ? & ?)
  | H : sys_exit _ _ = (_, Ok _) |- _ => discriminate H
  | H : display_letter_pool _ _ = (_, Ok _) |- _ =>
      apply display_letter_pool_Ok in H as (? & ?)
  | H : random_sample _ _ = (_, Ok _) |- _ =>
      apply random_sample_Ok in H as (? & ?)
  end.

(** The shuffle command on a good pool: the center stays and the petals
    are permuted. *)
Lemma shuffle_ok (self : SpellB) (g : rng) :
  pool_ok (letter_pool self) →
  ∃ center petals petals' g',
    letter_pool self = center :: petals
    ∧ execute_command self (py "shuffle") g
      = ([DisplayLetterPool (center :: petals')],
         Ok (set_letter_pool (center :: petals') self, g'))
    ∧ petals' ≡ₚ petals.
Proof.
  intros Hok. destruct (letter_pool self) as [|center petals] eqn:E.
  { destruct Hok as [Hl _]. discriminate Hl. }
  pose proof (sample_perm petals g) as Hp.
  destruct (sample petals g) as [petals' g'] eqn:Es. simpl in Hp.
  exists center, petals, petals', g'. split; [done|]. split; [|done].
  unfold execute_command.
  change (resolve COMMANDS (py "shuffle")) with (Selected (py "shuffle")).
  cbv beta iota. decide_commands. rewrite E. cbn [tail].
  unfold bind, lift, random_sample. cbv beta. rewrite Es.
  change (getitem (center :: petals) 0) with (Ok center). cbv beta iota.
  rewrite display_letter_pool_ok.
  - reflexivity.
  - simpl. eapply pool_ok_same_pool; [exact Hok|]. by split.
Qed.

(** A command changes at most the order of the petals. *)
Lemma execute_command_frame (self self' : SpellB) (user_command : str)
    (g g' : rng) (out : list event) :
  execute_command self user_command g = (out, Ok (self', g')) →
  found_words self' = found_words self
  ∧ score self' = score self
  ∧ word_list self' = word_list self
  ∧ best_possible_score self' = best_possible_score self
  ∧ same_pool (letter_pool self) (letter_pool self').
Proof.
  unfold execute_command. intros H.
  destruct (resolve COMMANDS user_command) as [|cands|chosen].
  - repeat invert_step. subst. by repeat split.
  - repeat invert_step. subst. by repeat split.
  - repeat case_bool_decide; repeat invert_step; subst;
      try (by repeat split).
    repeat split; simpl; [|done].
    match goal with
    | Hg : getitem (letter_pool self) 0 = Ok ?c |- _ =>
        apply getitem_0 in Hg; destruct (letter_pool self); [done|];
        simpl in Hg; by injection Hg as ->
    end.
Qed.

(** A turn changes neither the word list nor the best possible score,
    and of the pool at most the order of the petals. *)
Lemma loop_body_frame (game game' : SpellB) (user_input : str)
    (g g' : rng) (out : list event) :
  loop_body game user_input g = (out, Ok (game', g')) →
  word_list game' = word_list game
  ∧ best_possible_score game' = best_possible_score game
  ∧ same_pool (letter_pool game) (letter_pool game').
Proof.
  unfold loop_body. destruct (startswith _ _).
  - intros H. apply execute_command_frame in H. tauto.
  - intros H. repeat invert_step. subst.
    match goal with a : (Z * str)%type |- _ => destruct a as [p r] end.
    repeat invert_step. subst.
    destruct (p =? 0)%Z; by repeat split.
Qed.

Lemma plays_frame (game0 game : SpellB) :
  plays game0 game →
  word_list game = word_list game0
  ∧ best_possible_score game = best_possible_score game0
  ∧ same_pool (letter_pool game0) (letter_pool game).
Proof.
  induction 1 as [|game game' line g g' out _ (IH1 & IH2 & IH3) _ Hb].
  - by repeat split.
  - apply loop_body_frame in Hb as (H1 & H2 & H3).
    split; [congruence|]. split; [congruence|].
    by eapply same_pool_trans.
Qed.

(** What [__init__] establishes. *)
Lemma init_Ok (pool : option str) (text : str) (g g0 : rng)
    (out : list event) (game0 : SpellB) :
  init pool text g = (out, Ok (game0, g0)) →
  pool_ok (letter_pool game0)
  ∧ found_words game0 = []
  ∧ score game0 = 0%Z
  ∧ prepare_loop (letter_pool game0) (file_lines text) []
    = Ok (word_list game0)
  ∧ best_possible_score game0 = sum_points game0 (word_list game0)
  ∧ all_evaluate game0 (word_list game0).
Proof.
  unfold init. intros H. repeat invert_step. subst.
  match goal with
  | H1 : match pool with _ => _ end _ = (_, Ok (?s, _)) |- _ =>
      assert (Hpool : pool_ok (letter_pool s)
                      ∧ s = set_letter_pool (letter_pool s) new_game);
      [ destruct pool as [[|c p]|];
        [ apply generate_letter_pool_Ok in H1; tauto
        | pose proof (validate_letter_pool_pool_ok _ _ _ _ _ _ H1);
          pose proof (validate_letter_pool_Ok _ _ _ _ _ _ H1)
            as (Ha & Hc & Hs);
          destruct (validate_letter_pool_accepts new_game (c :: p) g
                      Ha Hc Hs) as (? & ? & E & _);
          rewrite E in H1; injection H1 as ? <- ?; by split
        | apply generate_letter_pool_Ok in H1; tauto ]
      | clear H1 ]
  end.
  destruct Hpool as [Hok Hself].
  unfold prepare_word_list in *. repeat invert_step. subst.
  match goal with
  | Hb : best_loop _ _ = Ok _ |- _ =>
      apply best_loop_Ok in Hb as [-> Hall]; [|by rewrite Hself]
  end.
  simpl in *. rewrite Hself in *. simpl in *.
  split; [exact Hok|]. repeat split; try done.
Qed.

End LoopProperties.

Section SessionProperties.
Context {rng : Type} `{!Runtime rng}.

(** C9.  The letter pool is always seven different letters of [a-z] with
    the center first: a generated pool (there is one as soon as the word
    file has a candidate) and a validated pool are such, so is
    the pool after [__init__], and every turn of the main loop keeps the
    center and the set of petals.  The shuffle command, on such a pool,
    keeps the center at position 0 and permutes the six petals.  In such
    a pool the center occurs once. *)
Theorem letter_pool_invariant :
  (∀ self text g out self' g',
     generate_letter_pool self text g = (out, Ok (self', g')) →
     pool_ok (letter_pool self'))
  ∧ (∀ self text g,
       generate_loop (file_lines text) [] ≠ [] →
       ∃ pool g',
         generate_letter_pool self text g
         = ([], Ok (set_letter_pool pool self, g'))
         ∧ pool_ok pool)
  ∧ (∀ self pool g out self' g',
       validate_letter_pool self pool g = (out, Ok (self', g')) →
       pool_ok (letter_pool self'))
  ∧ (∀ pool text g out game0 g0 game,
       init pool text g = (out, Ok (game0, g0)) →
       plays game0 game →
       pool_ok (letter_pool game0)
       ∧ pool_ok (letter_pool game)
       ∧ same_pool (letter_pool game0) (letter_pool game))
  ∧ (∀ game g,
       pool_ok (letter_pool game) →
       ∃ center petals petals' g',
         letter_pool game = center :: petals
         ∧ execute_command game (py "shuffle") g
           = ([DisplayLetterPool (center :: petals')],
              Ok (set_letter_pool (center :: petals') game, g'))
         ∧ petals' ≡ₚ petals
         ∧ pool_ok (center :: petals'))
  ∧ (∀ pool,
       pool_ok pool →
       ∃ center petals,
         pool = center :: petals ∧ length petals = 6%nat
         ∧ (center ∉ petals) ∧ NoDup petals).
Proof.
  split; [|split; [|split; [|split; [|split]]]].
  - intros self text g out self' g' H.
    by apply generate_letter_pool_Ok in H as [? _].
  - intros self text g Hne.
    destruct (generate_letter_pool_total self text g Hne) as (pool & g' & E).
    exists pool, g'. split; [done|].
    by apply generate_letter_pool_Ok in E as [? _].
  - intros self pool g out self' g' H.
    by eapply validate_letter_pool_pool_ok.
  - intros pool text g out game0 g0 game Hi Hp.
    apply init_Ok in Hi as (Hok & _). apply plays_frame in Hp as (_ & _ & Hs).
    split; [done|]. split; [|done]. by eapply pool_ok_same_pool.
  - intros game g Hok.
    destruct (shuffle_ok game g Hok) as (c & p & p' & g' & E & Hx & Hp).
    exists c, p, p', g'. split; [done|]. split; [done|]. split; [done|].
    rewrite E in Hok. eapply pool_ok_same_pool; [exact Hok|]. by split.
  - intros pool (Hl & Hn & _). destruct pool as [|c p]; [discriminate|].
    apply NoDup_cons in Hn as [? ?]. exists c, p. simpl in Hl.
    repeat split; try done. lia.
Qed.

(** C4.  After [__init__] the best possible score is the sum, over the
    words of the word list, of the points of [evaluate_word] with no
    found words, every one of these evaluations gives a result and none
    is the already-found rejection, and no turn of the main loop changes
    the best possible score or the word list: it is that sum at every
    later moment. *)
Theorem best_possible_score_static (pool : option str) (text : str)
    (g g0 : rng) (out : list event) (game0 game : SpellB) :
  init pool text g = (out, Ok (game0, g0)) →
  plays game0 game →
  found_words game0 = []
  ∧ best_possible_score game0 = sum_points game0 (word_list game0)
  ∧ all_evaluate game0 (word_list game0)
  ∧ best_possible_score game = best_possible_score game0
  ∧ word_list game = word_list game0
  ∧ best_possible_score game = sum_points game (word_list game)
  ∧ all_evaluate game (word_list game)
  ∧ (∀ word, evaluate_word (set_found_words [] game) word
             ≠ Ok (0%Z, AlreadyFound)).
Proof.
  intros Hi Hp.
  apply init_Ok in Hi as (_ & Hf & _ & _ & Hb & Hall).
  apply plays_frame in Hp as (Hw & Hbest & Hs).
  assert (Hev : ∀ w, evaluate_word (set_found_words [] game) w
                     = evaluate_word (set_found_words [] game0) w).
  { intros w. apply evaluate_word_same_pool; simpl; try done.
    destruct Hs as [H1 H2]. split; [done|]. by symmetry. }
  repeat split; try done.
  - rewrite Hbest, Hb, Hw. unfold sum_points. apply foldr_ext; try done.
    intros w acc. by rewrite Hev.
  - rewrite Hw. eapply Forall_impl; [exact Hall|]. simpl.
    intros w (v & m & E). exists v, m. by rewrite Hev.
  - intros word. by apply evaluate_word_empty_history.
Qed.

End SessionProperties.

(** The example session: [__init__], then a word and a shuffle. *)
Lemma example_init :
  @init unit fixed_runtime (Some (py "taserin")) example_dictionary tt
  = ([PrintWelcome; DisplayLetterPool (py "tseianr")],
     Ok (example_game0, tt)).
Proof. vm_compute. reflexivity. Qed.

Lemma example_plays : @plays unit fixed_runtime example_game0 example_game.
Proof.
  eapply (plays_turn _ _ _ (py ":SHUFFLE") tt).
  - eapply (plays_turn _ _ _ (py "Tears") tt).
    + apply plays_start.
    + vm_compute. discriminate.
    + vm_compute. reflexivity.
  - vm_compute. discriminate.
  - vm_compute. reflexivity.
Qed.

(** A whole run: an unknown command, a word that is too short, a word, the
    same word again, and quit. *)
Example example_run :
  @main unit fixed_runtime (Some (py "taserin")) example_dictionary
    [py ":x"; py "tea"; py "tears"; py "TEARS"; py ":q"; py "stare"] tt
  = ([PrintWelcome; DisplayLetterPool (py "tseianr");
      PrintLine InvalidCommandText;
      PrintResult 0 TooShort;
      PrintResult 5 [];
      PrintResult 0 AlreadyFound],
     Raise (SystemExit 0)).
Proof. vm_compute. reflexivity. Qed.

(** The pool of the example session stays a good pool with center [t]. *)
Lemma letter_pool_invariant_witness :
  pool_ok (py "tseianr") ∧ pool_ok (py "trnaies")
  ∧ same_pool (py "tseianr") (py "trnaies").
Proof.
  exact (proj1 (proj2 (proj2 (proj2
                  (@letter_pool_invariant unit fixed_runtime))))
           (Some (py "taserin")) example_dictionary tt _ example_game0 tt
           example_game example_init example_plays).
Defined.

(** The best possible score of the example session is 5 + 14 + 6 + 5 at the
    start and after the two turns. *)
Lemma best_possible_score_static_witness :
  found_words example_game0 = []
  ∧ best_possible_score example_game0 = sum_points example_game0 example_words
  ∧ all_evaluate example_game0 example_words
  ∧ best_possible_score example_game = 30%Z
  ∧ word_list example_game = example_words
  ∧ best_possible_score example_game = sum_points example_game example_words
  ∧ all_evaluate example_game example_words
  ∧ (∀ word, evaluate_word (set_found_words [] example_game) word
             ≠ Ok (0%Z, AlreadyFound)).
Proof.
  exact (@best_possible_score_static unit fixed_runtime
           (Some (py "taserin")) example_dictionary tt tt _ example_game0
           example_game example_init example_plays).
Defined.

(** ** The word list *)

Lemma playable_true (pool word : str) :
  playable pool word = true
  ↔ (4 ≤ len word)%Z
    ∧ (∃ center, head pool = Some center ∧ center ∈ word)
    ∧ (∀ c, c ∈ word → c ∈ pool)
    ∧ (∃ c, c ∈ word ∧ c ∈ py "aeiouy").
Proof.
  unfold playable. rewrite !andb_true_iff, Z.leb_le, forallb_forall,
    existsb_exists.
  assert (H1 : match pool with c :: _ => char_in c word | [] => false end = true
               ↔ ∃ center, head pool = Some center ∧ center ∈ word).
  { destruct pool as [|c p]; simpl.
    - split; [discriminate|]. by intros (? & ? & _).
    - rewrite char_in_true. split; [by exists c|].
      by intros (? & [= <-] & ?). }
  rewrite H1. split.
  - intros (((? & ?) & Hall) & (c & Hc & Hv)). repeat split; try done.
    + intros x Hx. apply char_in_true, Hall, list_elem_of_In, Hx.
    + exists c. rewrite list_elem_of_In. split; [done|].
      by apply bool_decide_eq_true in Hv.
  - intros (? & ? & Hall & (c & Hc & Hv)). repeat split; try done.
    + intros x Hx. apply char_in_true, Hall, list_elem_of_In, Hx.
    + exists c. rewrite <- list_elem_of_In. split; [done|].
      by apply bool_decide_eq_true.
Qed.

Lemma lstrip_head (s : str) (c : ascii) (t : str) :
  lstrip s = c :: t → isspace_char c = false.
Proof.
  induction s as [|a s IH]; simpl; [discriminate|].
  destruct (isspace_char a) eqn:E; [exact IH|]. by intros [= <- _].
Qed.

Lemma last_rev {A : Type} (l : list A) : last (rev l) = head l.
Proof. rewrite rev_alt. apply last_reverse. Qed.

(** A stripped string does not end in white space. *)
Lemma strip_last (s : str) (c : ascii) :
  last (strip s) = Some c → isspace_char c = false.
Proof.
  unfold strip, rstrip. rewrite last_rev.
  destruct (lstrip (rev (lstrip s))) as [|a t] eqn:E; [discriminate|].
  simpl. intros [= <-]. by eapply lstrip_head.
Qed.

(** On a string that does not end in a newline, [^[cls]+$] asks for one
    character or more, all of the class. *)
Lemma re_match_plus_forallb (cls : ascii → bool) (s : str) :
  s ≠ [] → last s ≠ Some newline →
  re_match_plus cls s = forallb cls s.
Proof.
  induction s as [|c s IH]; [done|]. intros _ Hl.
  destruct s as [|d s]; [simpl; by rewrite andb_true_r|].
  cbn [re_match_plus forallb]. f_equal.
  rewrite bool_decide_eq_false_2.
  - apply IH; [done|]. by rewrite last_cons_cons in Hl.
  - intros E. rewrite E in Hl. by apply Hl.
Qed.

(** The loop on a pool with a center: it keeps the playable entries, in
    their order, up to the first empty entry. *)
Lemma prepare_loop_spec (pool : str) (lines : list str) (word_list : list str) :
  pool ≠ [] →
  prepare_loop pool lines word_list
  = Ok (word_list
        ++ List.filter (playable pool) (before_blank (map strip lines))).
Proof.
  intros Hne. revert word_list.
  induction lines as [|line lines IH]; intros word_list.
  - simpl. by rewrite app_nil_r.
  - cbn [prepare_loop map before_blank].
    destruct (strip line) as [|c w] eqn:E.
    { simpl. by rewrite app_nil_r. }
    assert (Hw : c :: w ≠ []) by done.
    remember (c :: w) as word eqn:Eword. clear Eword. cbn [List.filter].
    assert (Hm : re_match_plus (λ c0, char_in c0 pool) word
                 = forallb (λ c0, char_in c0 pool) word).
    { apply re_match_plus_forallb; [done|]. intros Hl.
      rewrite <- E in Hl. by apply strip_last in Hl. }
    unfold playable at 1. rewrite Hm. unfold re_search.
    destruct pool as [|center petals]; [done|].
    destruct (Z.ltb_spec (len word) 4) as [Hlt|Hge].
    { destruct (Z.leb_spec 4 (len word)); [lia|]. cbn [andb]. apply IH. }
    destruct (Z.leb_spec 4 (len word)); [|lia]. cbn [andb].
    destruct (char_in center word); cbn [negb andb]; [|apply IH].
    destruct (forallb _ word); cbn [negb andb]; [|apply IH].
    destruct (existsb is_aeiouy word); cbn [negb andb]; [|apply IH].
    rewrite IH, <- app_assoc. reflexivity.
Qed.

Lemma before_blank_all (words : list str) :
  Forall (λ word, word ≠ []) words → before_blank words = words.
Proof.
  induction 1 as [|word words Hw _ IH]; [done|].
  destruct word; [done|]. simpl. by rewrite IH.
Qed.

Section WordListProperties.
Context {rng : Type} `{!Runtime rng}.

(** On a word file without an empty entry, [prepare_word_list] stores
    the playable entries of the whole file, in the order of the file. *)
Lemma prepare_word_list_no_blank (self : SpellB) (text : str) (g : rng) :
  pool_ok (letter_pool self) →
  Forall (λ word, word ≠ []) (entries text) →
  prepare_word_list self text g
  = ([], Ok (set_word_list
               (List.filter (playable (letter_pool self)) (entries text))
               self, g)).
Proof.
  intros [Hl _] Hall. unfold prepare_word_list.
  rewrite prepare_loop_spec by (by destruct (letter_pool self)).
  fold (entries text). rewrite before_blank_all by done. reflexivity.
Qed.

End WordListProperties.

(** C3 fails on a word file with an empty line: the loop of
    [prepare_word_list] takes the empty line for the end of the file, so
    the playable entry "retains" after it is left out. *)
Theorem prepare_word_list_stops_at_blank_line :
  entries blank_line_dictionary = [py "tears"; []; py "retains"]
  ∧ playable (py "taserin") (py "retains") = true
  ∧ @prepare_word_list unit
      (set_letter_pool (py "taserin") new_game) blank_line_dictionary tt
    = ([], Ok (set_word_list [py "tears"]
                 (set_letter_pool (py "taserin") new_game), tt))
  ∧ (py "retains" ∉ [py "tears"])
  ∧ (∃ out game,
       @init unit fixed_runtime (Some (py "taserin")) blank_line_dictionary tt
       = (out, Ok (game, tt))
       ∧ word_list game = [py "tears"]
       ∧ best_possible_score game = 5%Z).
Proof.
  split; [reflexivity|]. split; [reflexivity|]. split; [reflexivity|].
  split; [decide_by_computing|].
  eexists _, _. split; [vm_compute; reflexivity|]. by split.
Qed.

(* ===================================================================== *)
(** * Further properties *)
(* ===================================================================== *)

(** ** evaluate_word *)

(** What [evaluate_word] returns, branch by branch. *)
Lemma evaluate_word_Ok (self : SpellB) (word : str) (value : Z)
    (message : str) :
  evaluate_word self word = Ok (value, message) →
  (value = 0%Z ∧ message ∈ rejections)
  ∨ (re_match_plus is_az word = true
     ∧ (∃ center, head (letter_pool self) = Some center ∧ center ∈ word)
     ∧ (4 ≤ len word)%Z
     ∧ word ∈ word_list self
     ∧ (word ∉ found_words self)
     ∧ ((message = [] ∧ value = if (len word =? 4)%Z then 1%Z else len word)
        ∨ (message = Pangram ∧ value = (len word + 7)%Z
           ∧ (7 ≤ len word)%Z))).
Proof.
  unfold evaluate_word, rejections.
  destruct (re_match_plus is_az word) eqn:Hm; simpl negb; cbv iota.
  2:{ intros [= <- <-]. left. split; [done|]. set_solver. }
  destruct (letter_pool self) as [|center petals]; [discriminate|].
  destruct (char_in center word) eqn:Hc; simpl negb; cbv iota.
  2:{ intros [= <- <-]. left. split; [done|]. set_solver. }
  destruct (Z.ltb_spec (len word) 4) as [|Hl].
  { intros [= <- <-]. left. split; [done|]. set_solver. }
  destruct (bool_decide (word ∈ word_list self)) eqn:Hw; simpl negb; cbv iota.
  2:{ intros [= <- <-]. left. split; [done|]. set_solver. }
  destruct (bool_decide (word ∈ found_words self)) eqn:Hf.
  { intros [= <- <-]. left. split; [done|]. set_solver. }
  apply char_in_true in Hc. apply bool_decide_eq_true in Hw.
  apply bool_decide_eq_false in Hf.
  assert (Hrest : re_match_plus is_az word = true
            ∧ (∃ c, head (center :: petals) = Some c ∧ c ∈ word)
            ∧ (4 ≤ len word)%Z ∧ word ∈ word_list self
            ∧ (word ∉ found_words self)).
  { split; [done|]. split; [by exists center|]. done. }
  destruct (Z.leb_spec 7 (len word)) as [H7|H7]; cbn [andb].
  - destruct (uses_all _ _); intros [= <- <-]; right.
    + repeat (split; [tauto|]). right. split; [done|]. split; [|done].
      destruct (Z.eqb_spec (len word) 4); [lia|done].
    + repeat (split; [tauto|]). by left.
  - intros [= <- <-]. right. repeat (split; [tauto|]). by left.
Qed.

Lemma rejections_nonempty (message : str) :
  message ∈ rejections → message ≠ [] ∧ message ≠ Pangram.
Proof.
  unfold rejections. intros H.
  repeat (apply elem_of_cons in H as [->|H]); try (split; discriminate).
  by apply elem_of_nil in H.
Qed.

(** Points are never negative. *)
Lemma points_nonneg (self : SpellB) (word : str) :
  (0 ≤ points (evaluate_word self word))%Z.
Proof.
  destruct (evaluate_word self word) as [[value message]|e] eqn:E; [|done].
  simpl. apply evaluate_word_Ok in E as [[-> _]|(_ & _ & Hl & _ & _ & H)];
    [done|].
  destruct H as [[_ ->]|(_ & -> & _)]; [|lia].
  destruct (Z.eqb_spec (len word) 4); lia.
Qed.

(** A word that was not found before is evaluated as with no found words. *)
Lemma evaluate_word_not_found (self : SpellB) (word : str) :
  word ∉ found_words self →
  evaluate_word self word = evaluate_word (set_found_words [] self) word.
Proof.
  intros Hf. unfold evaluate_word, set_found_words.
  cbn [found_words letter_pool word_list].
  rewrite (bool_decide_eq_false_2 _ Hf).
  rewrite (bool_decide_eq_false_2 (word ∈ [])) by apply not_elem_of_nil.
  reflexivity.
Qed.

(** A found word that passes the first four tests is already found. *)
Lemma evaluate_word_already_found (self : SpellB) (word : str) (center : ascii) :
  head (letter_pool self) = Some center →
  re_match_plus is_az word = true →
  center ∈ word →
  (4 ≤ len word)%Z →
  word ∈ word_list self →
  word ∈ found_words self →
  evaluate_word self word = Ok (0%Z, AlreadyFound).
Proof.
  intros Hh Hm Hc Hl Hw Hf. unfold evaluate_word. rewrite Hm.
  destruct (letter_pool self) as [|c petals]; [discriminate|].
  injection Hh as ->.
  apply char_in_true in Hc. rewrite Hc. simpl negb. cbv iota.
  destruct (Z.ltb_spec (len word) 4) as [?|_]; [lia|].
  rewrite (bool_decide_eq_true_2 _ Hw), (bool_decide_eq_true_2 _ Hf).
  reflexivity.
Qed.

(** X1.  [evaluate_word] gives points, that is, a value other than 0,
    exactly to the words that pass all five tests: the word matches
    [^[a-z]+$], contains the first letter of the pool, has 4 letters or
    more, is in the word list and is not among the found words. *)
Theorem evaluate_word_accepts_iff (self : SpellB) (word : str) :
  (∃ value message,
     evaluate_word self word = Ok (value, message) ∧ value ≠ 0%Z)
  ↔ re_match_plus is_az word = true
    ∧ (∃ center, head (letter_pool self) = Some center ∧ center ∈ word)
    ∧ (4 ≤ len word)%Z
    ∧ word ∈ word_list self
    ∧ (word ∉ found_words self).
Proof.
  split.
  - intros (value & message & E & Hv).
    apply evaluate_word_Ok in E as [[-> _]|H]; [done|]. tauto.
  - intros (Hm & (center & Hh & Hc) & Hl & Hw & Hf).
    destruct (letter_pool self) as [|c petals] eqn:E; [discriminate|].
    injection Hh as ->.
    destruct (evaluate_word_accepts self word center petals E Hm Hc Hl Hw Hf)
      as (value & message & Hev & Hpos).
    exists value, message. split; [done|lia].
Qed.

(** X2.  Whatever [evaluate_word] returns, the points are between 0 and the
    length of the word plus 7; they are 0 exactly when the message is one
    of the five rejection texts, which are not empty; and a Pangram message
    comes with 14 points or more. *)
Theorem evaluate_word_points_range (self : SpellB) (word : str) (value : Z)
    (message : str) :
  evaluate_word self word = Ok (value, message) →
  (0 ≤ value ≤ len word + 7)%Z
  ∧ (value = 0%Z ↔ message ∈ rejections)
  ∧ (message ∈ rejections → message ≠ [])
  ∧ (message = Pangram → (14 ≤ value)%Z).
Proof.
  intros E. assert (Hlen : (0 ≤ len word)%Z) by (unfold len; lia).
  apply evaluate_word_Ok in E as [[-> Hr]|(_ & _ & Hl & _ & _ & H)].
  - split; [lia|]. split; [done|]. split.
    + intros _. by apply rejections_nonempty.
    + intros ->. by apply rejections_nonempty in Hr as [_ ?].
  - assert (Hv : (1 ≤ value ≤ len word + 7)%Z
                 ∧ (message = [] ∨ message = Pangram)
                 ∧ (message = Pangram → (14 ≤ value)%Z)).
    { destruct H as [[-> ->]|(-> & -> & H7)].
      - split; [destruct (Z.eqb_spec (len word) 4); lia|].
        split; [by left|]. discriminate.
      - split; [lia|]. split; [by right|]. lia. }
    destruct Hv as (Hv & Hm & Hp).
    split; [lia|]. split; [|split; [|done]].
    + split; [lia|]. intros Hr. apply rejections_nonempty in Hr as [? ?].
      by destruct Hm.
    + intros Hr. by apply rejections_nonempty in Hr as [? _].
Qed.

(** The pangram of the example game scores 14. *)
Lemma evaluate_word_points_range_witness :
  (0 ≤ 14 ≤ len (py "retains") + 7)%Z
  ∧ (14%Z = 0%Z ↔ Pangram ∈ rejections)
  ∧ (Pangram ∈ rejections → Pangram ≠ [])
  ∧ (Pangram = Pangram → (14 ≤ 14)%Z).
Proof.
  apply (evaluate_word_points_range taserin (py "retains")).
  vm_compute. reflexivity.
Defined.

Lemma evaluate_word_Raise (self : SpellB) (word : str) (e : exn) :
  evaluate_word self word = Raise e
  ↔ letter_pool self = [] ∧ re_match_plus is_az word = true
    ∧ e = IndexError.
Proof.
  unfold evaluate_word. split.
  - destruct (re_match_plus is_az word); simpl negb; cbv iota;
      [|discriminate].
    destruct (letter_pool self) as [|center petals].
    + by intros [= <-].
    + repeat match goal with
             | |- context [if ?b then _ else _] => destruct b
             end; discriminate.
  - intros (-> & -> & ->). reflexivity.
Qed.

(** X3.  [evaluate_word] raises only on an empty letter pool, and then only
    for a word that matches [^[a-z]+$]: the exception is the [IndexError]
    of [self.letter_pool[0]]. *)
Theorem evaluate_word_raises_iff (self : SpellB) (word : str) (e : exn) :
  evaluate_word self word = Raise e
  ↔ letter_pool self = [] ∧ re_match_plus is_az word = true
    ∧ e = IndexError.
Proof. apply evaluate_word_Raise. Qed.

(** ** The word list, again *)

Lemma filter_sublist {A : Type} (f : A → bool) (l : list A) :
  List.filter f l `sublist_of` l.
Proof.
  induction l as [|x l IH]; simpl; [done|].
  destruct (f x); [by apply sublist_skip|by apply sublist_cons].
Qed.

Lemma before_blank_sublist (words : list str) :
  before_blank words `sublist_of` words.
Proof.
  induction words as [|word words IH]; [done|].
  destruct word; simpl; [apply sublist_nil_l|by apply sublist_skip].
Qed.

Lemma elem_of_filter_bool {A : Type} (f : A → bool) (l : list A) (x : A) :
  x ∈ List.filter f l ↔ x ∈ l ∧ f x = true.
Proof. rewrite !list_elem_of_In. apply filter_In. Qed.

Lemma solution_sublist (pool text : str) :
  solution pool text `sublist_of` entries text.
Proof.
  unfold solution. etrans; [apply filter_sublist|apply before_blank_sublist].
Qed.

Lemma solution_playable (pool text word : str) :
  word ∈ solution pool text → playable pool word = true.
Proof. unfold solution. rewrite elem_of_filter_bool. tauto. Qed.

Lemma prepare_word_list_run {rng : Type} (self : SpellB) (text : str)
    (g : rng) :
  letter_pool self ≠ [] →
  prepare_word_list self text g
  = ([], Ok (set_word_list (solution (letter_pool self) text) self, g)).
Proof.
  intros Hne. unfold prepare_word_list.
  rewrite prepare_loop_spec by done. reflexivity.
Qed.

Lemma pool_ok_nonempty (pool : str) : pool_ok pool → pool ≠ [].
Proof. intros [Hl _] ->. discriminate Hl. Qed.

(** A playable word of a good pool matches [^[a-z]+$]. *)
Lemma playable_matches (pool word : str) :
  pool_ok pool → playable pool word = true →
  re_match_plus is_az word = true.
Proof.
  intros (_ & _ & Haz) Hp. apply playable_true in Hp as (Hl & _ & Hall & _).
  rewrite Forall_forall in Haz.
  assert (Hw : Forall (λ c, is_az c = true) word).
  { apply Forall_forall. intros c Hc. by apply Haz, Hall. }
  apply re_match_plus_true. exists word. split; [|split; [done|by left]].
  intros ->. unfold len in Hl. simpl in Hl. lia.
Qed.

(** Every word of the word list of a good pool scores when it is not found
    yet. *)
Lemma solution_scores (self : SpellB) (text word : str) :
  pool_ok (letter_pool self) →
  word_list self = solution (letter_pool self) text →
  word ∈ word_list self →
  ∃ value message,
    evaluate_word (set_found_words [] self) word = Ok (value, message)
    ∧ (1 ≤ value)%Z.
Proof.
  intros Hok Hwl Hin. pose proof Hin as Hin'. rewrite Hwl in Hin'.
  apply solution_playable in Hin'.
  pose proof (playable_matches _ _ Hok Hin') as Hm.
  apply playable_true in Hin' as (Hl & (center & Hh & Hc) & _ & _).
  destruct (letter_pool self) as [|c petals] eqn:E; [discriminate|].
  injection Hh as ->.
  destruct (evaluate_word_accepts (set_found_words [] self) word center petals)
    as (value & message & Hev & Hpos); try done.
  { simpl. apply not_elem_of_nil. }
  exists value, message. split; [done|lia].
Qed.

Lemma sum_points_ge_length (self : SpellB) (words : list str) :
  Forall (λ word, (1 ≤ points (evaluate_word (set_found_words [] self) word))%Z)
    words →
  (Z.of_nat (length words) ≤ sum_points self words)%Z.
Proof.
  unfold sum_points. induction 1 as [|word words Hw _ IH]; simpl; lia.
Qed.

Lemma sum_points_nonneg (self : SpellB) (words : list str) :
  (0 ≤ sum_points self words)%Z.
Proof.
  unfold sum_points. induction words as [|word words IH]; simpl; [lia|].
  pose proof (points_nonneg (set_found_words [] self) word). lia.
Qed.

Lemma sum_points_elem (self : SpellB) (words : list str) (word : str) :
  word ∈ words →
  (points (evaluate_word (set_found_words [] self) word)
   ≤ sum_points self words)%Z.
Proof.
  unfold sum_points. induction words as [|w words IH]; intros Hin.
  - by apply elem_of_nil in Hin.
  - simpl. apply elem_of_cons in Hin as [->|Hin].
    + pose proof (sum_points_nonneg self words) as Hn.
      unfold sum_points in Hn. lia.
    + specialize (IH Hin).
      pose proof (points_nonneg (set_found_words [] self) w). lia.
Qed.

Lemma sum_points_ext (self self' : SpellB) (words : list str) :
  same_pool (letter_pool self) (letter_pool self') →
  word_list self = word_list self' →
  sum_points self words = sum_points self' words.
Proof.
  intros Hs Hw. unfold sum_points. apply foldr_ext; try done.
  intros w acc. f_equal. f_equal.
  by apply evaluate_word_same_pool.
Qed.

(** [best_loop] on a game with a center and no found words. *)
Lemma best_loop_run (self : SpellB) (words : list str) :
  found_words self = [] →
  letter_pool self ≠ [] →
  best_loop self words
  = Ok (set_best_possible_score
          (best_possible_score self + sum_points self words) self).
Proof.
  intros Hf Hne.
  assert (H : ∃ self', best_loop self words = Ok self').
  { revert self Hf Hne. induction words as [|word words IH];
      intros self Hf Hne; simpl; [by eexists|].
    destruct (evaluate_word self word) as [[value message]|e] eqn:E.
    - by apply IH.
    - apply evaluate_word_Raise in E as [? _]. done. }
  destruct H as [self' H]. rewrite H.
  by apply best_loop_Ok in H as [-> _].
Qed.

(** X5.  On a good pool and any word file, [prepare_word_list] stores words
    that are entries of the file, in the order of the file, each with 4
    letters or more, with the center letter, with letters of the pool only
    and with a vowel or [y]; it prints nothing and does not raise. *)
Theorem prepare_word_list_sound {rng : Type} (self : SpellB) (text : str)
    (g : rng) :
  pool_ok (letter_pool self) →
  ∃ words,
    prepare_word_list self text g = ([], Ok (set_word_list words self, g))
    ∧ words `sublist_of` entries text
    ∧ ∀ word, word ∈ words →
        (4 ≤ len word)%Z
        ∧ (∃ center, head (letter_pool self) = Some center ∧ center ∈ word)
        ∧ (∀ c, c ∈ word → c ∈ letter_pool self)
        ∧ (∃ c, c ∈ word ∧ c ∈ py "aeiouy").
Proof.
  intros Hok. exists (solution (letter_pool self) text).
  split; [apply prepare_word_list_run; by apply pool_ok_nonempty|].
  split; [apply solution_sublist|].
  intros word Hin. apply solution_playable in Hin.
  by apply playable_true in Hin.
Qed.

(** The word file with an empty line: the one word before it is stored. *)
Lemma prepare_word_list_sound_witness :
  ∃ words,
    @prepare_word_list unit (set_letter_pool (py "taserin") new_game)
      blank_line_dictionary tt
    = ([], Ok (set_word_list words
                 (set_letter_pool (py "taserin") new_game), tt))
    ∧ words `sublist_of` entries blank_line_dictionary.
Proof.
  destruct (@prepare_word_list_sound unit
              (set_letter_pool (py "taserin") new_game)
              blank_line_dictionary tt) as (words & H1 & H2 & _).
  - split; [reflexivity|]. split.
    + decide_by_computing.
    + decide_by_computing.
  - by exists words.
Defined.

(** X6.  On a good pool and a word file in which no entry is empty before
    the end, [prepare_word_list] stores exactly the playable entries of the
    whole file, in the order of the file. *)
Theorem prepare_word_list_complete {rng : Type} (self : SpellB) (text : str)
    (g : rng) :
  pool_ok (letter_pool self) →
  Forall (λ word, word ≠ []) (entries text) →
  prepare_word_list self text g
  = ([], Ok (set_word_list
               (List.filter (playable (letter_pool self)) (entries text))
               self, g))
  ∧ ∀ word,
      word ∈ List.filter (playable (letter_pool self)) (entries text)
      ↔ word ∈ entries text
        ∧ (4 ≤ len word)%Z
        ∧ (∃ center, head (letter_pool self) = Some center ∧ center ∈ word)
        ∧ (∀ c, c ∈ word → c ∈ letter_pool self)
        ∧ (∃ c, c ∈ word ∧ c ∈ py "aeiouy").
Proof.
  intros Hok Hall. split.
  - rewrite prepare_word_list_run by (by apply pool_ok_nonempty).
    unfold solution. by rewrite before_blank_all.
  - intros word. by rewrite elem_of_filter_bool, playable_true.
Qed.

(** The example word file and the pool [taserin]. *)
Lemma prepare_word_list_complete_witness :
  @prepare_word_list unit (set_letter_pool (py "taserin") new_game)
    example_dictionary tt
  = ([], Ok (set_word_list example_words
               (set_letter_pool (py "taserin") new_game), tt)).
Proof.
  refine (proj1 (@prepare_word_list_complete unit
                   (set_letter_pool (py "taserin") new_game)
                   example_dictionary tt _ _)).
  - split; [reflexivity|]. split; decide_by_computing.
  - decide_by_computing.
Defined.





(** ** Generation and __init__ *)

(** The loop of [generate_letter_pool] keeps the sets of the candidate
    words, in their order, up to the first empty entry. *)
Lemma generate_loop_spec (lines : list str) (candidates : list pyset) :
  generate_loop lines candidates
  = candidates
    ++ map set_of (List.filter is_candidate (before_blank (map strip lines))).
Proof.
  revert candidates. induction lines as [|line lines IH]; intros candidates.
  - simpl. by rewrite app_nil_r.
  - cbn [generate_loop map before_blank].
    destruct (strip line) as [|c w] eqn:E.
    { simpl. by rewrite app_nil_r. }
    assert (Hw : c :: w ≠ []) by done.
    remember (c :: w) as word eqn:Eword. clear Eword.
    cbn [List.filter]. unfold is_candidate at 1.
    destruct (len word <? 7)%Z; cbn [negb andb]; [apply IH|].
    destruct (set_len (set_of word) =? 7)%Z; cbn [negb andb]; [|apply IH].
    destruct (re_search is_aeiouy word); cbn [negb andb]; [|apply IH].
    destruct (re_search (λ c0, negb (is_az c0)) word); cbn [negb andb];
      [apply IH|].
    rewrite IH. cbn [map]. by rewrite <- app_assoc.
Qed.

Lemma filter_nil_iff {A : Type} (f : A → bool) (l : list A) :
  List.filter f l = [] ↔ Forall (λ x, f x = false) l.
Proof.
  induction l as [|x l IH]; simpl.
  - split; [constructor|done].
  - rewrite Forall_cons. destruct (f x) eqn:E.
    + split; [discriminate|]. intros [? _]. discriminate.
    + rewrite IH. tauto.
Qed.

Section InitProperties.
Context {rng : Type} `{!Runtime rng}.

(** Without a candidate [random.randint(0, -1)] raises [ValueError]. *)
Lemma generate_letter_pool_empty (self : SpellB) (text : str) (g : rng) :
  generate_loop (file_lines text) [] = [] →
  generate_letter_pool self text g = ([], Raise ValueError).
Proof.
  intros E. unfold generate_letter_pool. rewrite E. reflexivity.
Qed.

(** A generated pool holds the letters of a candidate word of the file. *)
Lemma generate_letter_pool_source (self self' : SpellB) (text : str)
    (g g' : rng) (out : list event) :
  generate_letter_pool self text g = (out, Ok (self', g')) →
  ∃ word,
    word ∈ before_blank (entries text)
    ∧ is_candidate word = true
    ∧ ∀ c, c ∈ letter_pool self' ↔ c ∈ word.
Proof.
  unfold generate_letter_pool. intros H. invert_run H. subst.
  unfold random_randint in Hrun.
  destruct (_ <? 0)%Z; [discriminate|].
  destruct (randint _ _ g) as [i gi]. injection Hrun as <- <- <-.
  apply lift_Ok in Hrun0 as (Hget & -> & ->).
  apply random_sample_Ok in Hrun1 as [Hperm ->].
  apply getitem_Ok in Hget. rewrite generate_loop_spec in Hget.
  simpl in Hget. apply list_elem_of_fmap in Hget as (word & -> & Hin).
  apply elem_of_filter_bool in Hin as [Hin Hc].
  exists word. split; [done|]. split; [done|].
  intros c. simpl. rewrite Hperm, set_list_elem. apply set_of_elem.
Qed.

(** How [validate_letter_pool] ends: with [sys.exit(1)] or with a pool. *)
Lemma validate_letter_pool_result (self : SpellB) (pool : str) (g : rng) :
  (∃ out, validate_letter_pool self pool g = (out, Raise (SystemExit 1)))
  ∨ (∃ letters,
       validate_letter_pool self pool g
       = ([], Ok (set_letter_pool letters self, g))
       ∧ pool_ok letters
       ∧ ∀ c, c ∈ letters ↔ c ∈ lower pool).
Proof.
  destruct (validate_letter_pool_rejects self pool g) as (R1 & R2 & R3).
  destruct (isalpha pool && isascii pool) eqn:Ha;
    [|left; eexists; by apply R1].
  destruct (le_lt_dec (length (re_findall is_AZ pool)) 1) as [Hc|Hc];
    [|left; eexists; by apply R2].
  destruct (decide (size (list_to_set (lower pool) : gset ascii) = 7%nat))
    as [Hs|Hs]; [|left; eexists; by apply R3].
  right.
  destruct (validate_letter_pool_accepts self pool g Ha Hc Hs)
    as (center & petals & E & _ & _ & Hl & Hnd & Hel).
  exists (center :: petals). split; [done|]. split; [|done].
  pose proof (validate_letter_pool_pool_ok _ _ _ _ _ _ E) as Hok. done.
Qed.

(** How [generate_letter_pool] ends: with [ValueError] or with a pool. *)
Lemma generate_letter_pool_result (self : SpellB) (text : str) (g : rng) :
  generate_letter_pool self text g = ([], Raise ValueError)
  ∨ (∃ letters g',
       generate_letter_pool self text g
       = ([], Ok (set_letter_pool letters self, g'))
       ∧ pool_ok letters).
Proof.
  destruct (generate_loop (file_lines text) []) as [|ps l] eqn:E.
  - left. by apply generate_letter_pool_empty.
  - right.
    destruct (generate_letter_pool_total self text g) as (p & g' & H).
    { by rewrite E. }
    exists p, g'. split; [done|].
    by apply generate_letter_pool_Ok in H as [? _].
Qed.

(** [__init__] from the creation of the pool on: nothing raises. *)
Lemma init_run (pool : option str) (text : str) (g g1 : rng)
    (out1 : list event) (letters : str) :
  match pool with
  | None | Some [] => generate_letter_pool new_game text
  | Some pool => validate_letter_pool new_game pool
  end g = (out1, Ok (set_letter_pool letters new_game, g1)) →
  pool_ok letters →
  init pool text g
  = (out1 ++ [PrintWelcome; DisplayLetterPool letters],
     Ok (first_game letters text, g1)).
Proof.
  intros Hc Hok. unfold init. unfold bind at 1. cbv zeta. rewrite Hc.
  unfold bind at 1.
  rewrite prepare_word_list_run by (by apply pool_ok_nonempty).
  unfold bind at 1, lift at 1.
  rewrite best_loop_run; [|done|by apply pool_ok_nonempty].
  unfold bind at 1, print at 1. unfold bind at 1.
  rewrite display_letter_pool_ok by done.
  unfold ret. simpl. reflexivity.
Qed.

Lemma init_fails (pool : option str) (text : str) (g : rng)
    (out1 : list event) (e : exn) :
  match pool with
  | None | Some [] => generate_letter_pool new_game text
  | Some pool => validate_letter_pool new_game pool
  end g = (out1, Raise e) →
  init pool text g = (out1, Raise e).
Proof. intros Hc. unfold init. unfold bind at 1. cbv zeta. by rewrite Hc. Qed.

(** The game after [__init__] is [first_game] of its pool. *)
Lemma init_first_game (pool : option str) (text : str) (g g0 : rng)
    (out : list event) (game0 : SpellB) :
  init pool text g = (out, Ok (game0, g0)) →
  pool_ok (letter_pool game0)
  ∧ game0 = first_game (letter_pool game0) text
  ∧ out = [PrintWelcome; DisplayLetterPool (letter_pool game0)]
  ∧ match pool with
    | None | Some [] => generate_letter_pool new_game text
    | Some pool => validate_letter_pool new_game pool
    end g = ([], Ok (set_letter_pool (letter_pool game0) new_game, g0)).
Proof.
  intros H.
  assert (Hcases :
    (∃ out1 e, match pool with
               | None | Some [] => generate_letter_pool new_game text
               | Some pool => validate_letter_pool new_game pool
               end g = (out1, Raise e))
    ∨ (∃ letters g1, match pool with
                     | None | Some [] => generate_letter_pool new_game text
                     | Some pool => validate_letter_pool new_game pool
                     end g = ([], Ok (set_letter_pool letters new_game, g1))
                     ∧ pool_ok letters)).
  { destruct pool as [[|c p]|].
    - destruct (generate_letter_pool_result new_game text g)
        as [E|(l & g' & E & Hok)]; [left; by eexists _, _|right].
      by exists l, g'.
    - destruct (validate_letter_pool_result new_game (c :: p) g)
        as [[out1 E]|(l & E & Hok & _)]; [left; by eexists _, _|right].
      by exists l, g.
    - destruct (generate_letter_pool_result new_game text g)
        as [E|(l & g' & E & Hok)]; [left; by eexists _, _|right].
      by exists l, g'. }
  destruct Hcases as [(out1 & e & E)|(letters & g1 & E & Hok)].
  - rewrite (init_fails _ _ _ _ _ E) in H. discriminate.
  - rewrite (init_run _ _ _ _ _ _ E Hok) in H.
    injection H as <- <- <-. simpl.
    split; [done|]. split; [done|]. by split.
Qed.

End InitProperties.

(** A word that passes all five tests and uses every letter of the pool,
    with 7 letters or more. *)
Lemma evaluate_word_pangram (self : SpellB) (word : str) (center : ascii) :
  head (letter_pool self) = Some center →
  re_match_plus is_az word = true →
  center ∈ word →
  (7 ≤ len word)%Z →
  word ∈ word_list self →
  word ∉ found_words self →
  (∀ c, c ∈ letter_pool self → c ∈ word) →
  evaluate_word self word = Ok ((len word + 7)%Z, Pangram).
Proof.
  intros Hh Hm Hc Hl Hw Hf Hall. unfold evaluate_word. rewrite Hm.
  apply uses_all_true in Hall. rewrite Hall.
  destruct (letter_pool self) as [|c petals]; [discriminate|].
  injection Hh as ->.
  apply char_in_true in Hc. rewrite Hc. simpl negb. cbv iota.
  destruct (Z.ltb_spec (len word) 4) as [?|_]; [lia|].
  rewrite (bool_decide_eq_true_2 _ Hw), (bool_decide_eq_false_2 _ Hf).
  simpl negb. cbv iota.
  destruct (Z.leb_spec 7 (len word)); [|lia].
  destruct (Z.eqb_spec (len word) 4); [lia|]. reflexivity.
Qed.

Lemma is_candidate_true (word : str) :
  is_candidate word = true
  ↔ (7 ≤ len word)%Z
    ∧ size (list_to_set word : gset ascii) = 7%nat
    ∧ (∃ c, c ∈ word ∧ c ∈ py "aeiouy")
    ∧ Forall (λ c, is_az c = true) word.
Proof.
  unfold is_candidate, re_search, set_len, set_of. cbn [members].
  rewrite !andb_true_iff, !negb_true_iff, Z.ltb_ge, Z.eqb_eq.
  rewrite existsb_exists.
  assert (H1 : existsb (λ c, negb (is_az c)) word = false
               ↔ Forall (λ c, is_az c = true) word).
  { induction word as [|c w IH]; simpl.
    - split; [constructor|done].
    - rewrite Forall_cons, orb_false_iff, negb_false_iff, IH. tauto. }
  rewrite H1.
  assert (H2 : (∃ x, In x word ∧ is_aeiouy x = true)
               ↔ ∃ c, c ∈ word ∧ c ∈ py "aeiouy").
  { split; intros (c & Hc & Hv); exists c.
    - rewrite list_elem_of_In. split; [done|].
      by apply bool_decide_eq_true in Hv.
    - rewrite <- list_elem_of_In. split; [done|].
      by apply bool_decide_eq_true. }
  rewrite H2. split.
  - intros (((? & ?) & ?) & ?). split; [done|]. split; [lia|]. done.
  - intros (? & ? & ? & ?). split; [|done]. split; [|done].
    split; [done|lia].
Qed.

Section InitTheorems.
Context {rng : Type} `{!Runtime rng}.

(** X7.  After [__init__] every word of the word list earns at least one
    point, so the best possible score is at least the number of words, and
    it is 0 only for an empty word list. *)
Theorem word_list_words_score (pool : option str) (text : str) (g g0 : rng)
    (out : list event) (game0 : SpellB) :
  init pool text g = (out, Ok (game0, g0)) →
  (∀ word, word ∈ word_list game0 →
     ∃ value message,
       evaluate_word game0 word = Ok (value, message) ∧ (1 ≤ value)%Z)
  ∧ (Z.of_nat (length (word_list game0)) ≤ best_possible_score game0)%Z
  ∧ (best_possible_score game0 = 0%Z ↔ word_list game0 = []).
Proof.
  intros H. apply init_first_game in H as (Hok & E & _ & _).
  set (p := letter_pool game0) in *.
  assert (Hs : ∀ word, word ∈ word_list game0 →
            ∃ value message,
              evaluate_word (set_found_words [] game0) word
              = Ok (value, message) ∧ (1 ≤ value)%Z).
  { intros word Hin. apply (solution_scores game0 text); try done.
    by rewrite E at 1. }
  assert (Hf : found_words game0 = []) by (by rewrite E).
  assert (Hb : best_possible_score game0
               = sum_points game0 (word_list game0)).
  { rewrite E at 1. simpl. rewrite E at 2. simpl.
    apply sum_points_ext; simpl; [|by rewrite E].
    subst p. apply same_pool_refl. }
  assert (Hlen : (Z.of_nat (length (word_list game0))
                  ≤ best_possible_score game0)%Z).
  { rewrite Hb. apply sum_points_ge_length. apply Forall_forall.
    intros word Hin. destruct (Hs word Hin) as (v & m & -> & Hv). done. }
  split; [|split; [done|]].
  - intros word Hin. destruct (Hs word Hin) as (v & m & Hev & Hv).
    exists v, m. split; [|done]. rewrite <- Hev.
    apply evaluate_word_ext; simpl; done.
  - split.
    + intros H0. destruct (word_list game0); [done|]. simpl in Hlen. lia.
    + intros Hnil. rewrite Hb, Hnil. reflexivity.
Qed.

(** X8.  A game with a generated pool has a pangram: its word list holds a
    word of the word file that uses every letter of the pool, that word is
    evaluated as a Pangram for its length plus 7, and the best possible
    score is at least 14. *)
Theorem generated_game_has_pangram (pool : option str) (text : str)
    (g g0 : rng) (out : list event) (game0 : SpellB) :
  pool = None ∨ pool = Some [] →
  init pool text g = (out, Ok (game0, g0)) →
  ∃ word,
    word ∈ entries text
    ∧ word ∈ word_list game0
    ∧ (7 ≤ len word)%Z
    ∧ (∀ c, c ∈ letter_pool game0 ↔ c ∈ word)
    ∧ evaluate_word game0 word = Ok ((len word + 7)%Z, Pangram)
    ∧ (14 ≤ best_possible_score game0)%Z.
Proof.
  intros Hpool H. apply init_first_game in H as (Hok & E & _ & Hgen).
  assert (Hg : generate_letter_pool new_game text g
               = ([], Ok (set_letter_pool (letter_pool game0) new_game, g0))).
  { by destruct Hpool as [-> | ->]. }
  apply generate_letter_pool_source in Hg as (word & Hin & Hc & Hel).
  simpl in Hel.
  apply is_candidate_true in Hc as (H7 & _ & Hv & Haz).
  destruct (letter_pool game0) as [|center petals] eqn:Ep.
  { by apply pool_ok_nonempty in Hok. }
  assert (Hplay : playable (center :: petals) word = true).
  { apply playable_true. split; [lia|]. split.
    - exists center. split; [done|]. apply Hel. left.
    - split; [|done]. intros c. apply Hel. }
  assert (Hwl : word ∈ word_list game0).
  { rewrite E. simpl. unfold solution. by rewrite elem_of_filter_bool. }
  assert (Hev : evaluate_word game0 word = Ok ((len word + 7)%Z, Pangram)).
  { apply (evaluate_word_pangram game0 word center); try done.
    - by rewrite Ep.
    - apply re_match_plus_true. exists word.
      split; [|split; [done|by left]].
      intros ->. unfold len in H7. simpl in H7. lia.
    - apply Hel. left.
    - rewrite E. simpl. apply not_elem_of_nil.
    - intros c. rewrite Ep. apply Hel. }
  exists word. split.
  { eapply elem_of_sublist; [exact Hin|apply before_blank_sublist]. }
  split; [done|]. split; [done|]. split; [done|]. split; [done|].
  assert (Hb : best_possible_score game0
               = sum_points game0 (word_list game0)).
  { rewrite E at 1. simpl. rewrite E at 2. simpl.
    apply sum_points_ext; simpl; [|by rewrite E].
    rewrite Ep. apply same_pool_refl. }
  rewrite Hb. pose proof (sum_points_elem game0 _ _ Hwl) as Hle.
  assert (Hx : evaluate_word (set_found_words [] game0) word
               = evaluate_word game0 word).
  { apply evaluate_word_ext; simpl; try done. by rewrite E. }
  rewrite Hx, Hev in Hle. simpl in Hle. lia.
Qed.

(** X9.  [validate_letter_pool] does not ask for a vowel: for an accepted
    pool without any of [a e i o u y] the word list is empty and the best
    possible score is 0, whatever the word file. *)
Theorem vowelless_pool_has_no_words (pool text : str) (g g0 : rng)
    (out : list event) (game0 : SpellB) :
  pool ≠ [] →
  (∀ c, c ∈ pool → is_aeiouy (lower_char c) = false) →
  init (Some pool) text g = (out, Ok (game0, g0)) →
  word_list game0 = [] ∧ best_possible_score game0 = 0%Z.
Proof.
  intros Hne Hv H. apply init_first_game in H as (Hok & E & _ & Hval).
  destruct pool as [|a pool]; [done|].
  destruct (validate_letter_pool_result new_game (a :: pool) g)
    as [[out1 Hr]|(letters & Hr & _ & Hel)]; [congruence|].
  rewrite Hr in Hval. injection Hval as Hl _. simpl in Hl. subst letters.
  assert (Hsol : solution (letter_pool game0) text = []).
  { unfold solution. apply filter_nil_iff, Forall_forall. intros word _.
    destruct (playable (letter_pool game0) word) eqn:Hp; [|done].
    apply playable_true in Hp as (_ & _ & Hall & (c & Hc & Hvow)).
    apply Hall, Hel in Hc. unfold lower in Hc.
    apply list_elem_of_fmap in Hc as (c' & -> & Hc').
    apply Hv in Hc'. unfold is_aeiouy in Hc'.
    by apply bool_decide_eq_false in Hc'. }
  rewrite E. unfold first_game. rewrite Hsol. by split.
Qed.

(** X10.  Without a candidate word before the first empty entry of the
    word file, [generate_letter_pool] raises [ValueError] and prints
    nothing, and so does the main program started without a pool. *)
Theorem generate_without_candidates (self : SpellB) (text : str) (g : rng) :
  Forall (λ word, is_candidate word = false) (before_blank (entries text)) →
  generate_letter_pool self text g = ([], Raise ValueError)
  ∧ ∀ inputs, main None text inputs g = ([], Raise ValueError).
Proof.
  intros Hall.
  assert (E : generate_loop (file_lines text) [] = []).
  { rewrite generate_loop_spec. simpl. fold (entries text).
    by rewrite (proj2 (filter_nil_iff _ _) Hall). }
  split; [by apply generate_letter_pool_empty|].
  intros inputs. unfold main. unfold bind at 1.
  rewrite (init_fails None text g [] ValueError); [done|].
  by apply generate_letter_pool_empty.
Qed.

End InitTheorems.

(** The example sessions of this part. *)
Lemma generated_init :
  @init unit fixed_runtime None example_dictionary tt
  = ([PrintWelcome; DisplayLetterPool (py "trnaies")],
     Ok (generated_game, tt)).
Proof. vm_compute. reflexivity. Qed.

Lemma vowelless_init :
  @init unit fixed_runtime (Some (py "bcdfghj")) example_dictionary tt
  = ([PrintWelcome; DisplayLetterPool (py "bgcfjdh")],
     Ok (vowelless_game, tt)).
Proof. vm_compute. reflexivity. Qed.

(** The four words of the example game score 5, 14, 6 and 5. *)
Lemma word_list_words_score_witness :
  (∀ word, word ∈ example_words →
     ∃ value message,
       evaluate_word example_game0 word = Ok (value, message)
       ∧ (1 ≤ value)%Z)
  ∧ (4 ≤ 30)%Z
  ∧ (30%Z = 0%Z ↔ example_words = []).
Proof.
  exact (@word_list_words_score unit fixed_runtime _ _ _ _ _ _ example_init).
Defined.

(** Without a pool the example word file gives the letters of "retains". *)
Lemma generated_game_has_pangram_witness :
  ∃ word,
    word ∈ entries example_dictionary
    ∧ word ∈ example_words
    ∧ (7 ≤ len word)%Z
    ∧ (∀ c, c ∈ py "trnaies" ↔ c ∈ word)
    ∧ evaluate_word generated_game word = Ok ((len word + 7)%Z, Pangram)
    ∧ (14 ≤ 30)%Z.
Proof.
  exact (@generated_game_has_pangram unit fixed_runtime _ _ _ _ _ _
           (or_introl eq_refl) generated_init).
Defined.

(** The pool [bcdfghj] over the example word file. *)
Lemma vowelless_pool_has_no_words_witness :
  word_list vowelless_game = [] ∧ best_possible_score vowelless_game = 0%Z.
Proof.
  refine (@vowelless_pool_has_no_words unit fixed_runtime (py "bcdfghj")
            example_dictionary tt tt _ vowelless_game _ _ vowelless_init).
  - discriminate.
  - intros c Hc. unfold py in Hc. simpl in Hc.
    repeat (apply elem_of_cons in Hc as [->|Hc]); try reflexivity.
    by apply elem_of_nil in Hc.
Defined.

(** A word file of short words only. *)
Lemma generate_without_candidates_witness :
  @generate_letter_pool unit fixed_runtime new_game short_dictionary tt
  = ([], Raise ValueError).
Proof.
  refine (proj1 (@generate_without_candidates unit fixed_runtime new_game
                   short_dictionary tt _)).
  repeat constructor.
Defined.

(** ** The main loop, again *)

Lemma sum_points_app (self : SpellB) (l k : list str) :
  sum_points self (l ++ k) = (sum_points self l + sum_points self k)%Z.
Proof.
  unfold sum_points. induction l as [|w l IH]; simpl; [done|].
  rewrite IH. lia.
Qed.

Lemma sum_points_submseteq (self : SpellB) (l k : list str) :
  l ⊆+ k → (sum_points self l ≤ sum_points self k)%Z.
Proof.
  induction 1 as [|x l k _ IH|x y l|x l k _ IH|l1 l2 l3 _ IH1 _ IH2].
  - done.
  - unfold sum_points in *. simpl. lia.
  - unfold sum_points. simpl. lia.
  - pose proof (points_nonneg (set_found_words [] self) x).
    unfold sum_points in *. simpl. lia.
  - lia.
Qed.

(** A word that matches [^[a-z]+$] is no command line. *)
Lemma matches_no_command (word : str) :
  re_match_plus is_az word = true → startswith word (py ":") = false.
Proof.
  destruct word as [|c word]; [done|]. cbn [re_match_plus].
  intros H. apply andb_true_iff in H as [Hc _]. simpl.
  rewrite andb_true_r. apply bool_decide_eq_false. by intros <-.
Qed.

Lemma lower_char_idemp (c : ascii) : lower_char (lower_char c) = lower_char c.
Proof. ascii_cases c; reflexivity. Qed.

Lemma lower_idemp (s : str) : lower (lower s) = lower s.
Proof.
  unfold lower. induction s as [|c s IH]; simpl; [done|].
  by rewrite lower_char_idemp, IH.
Qed.

Lemma game_ok_first_game (pool text : str) : game_ok (first_game pool text).
Proof.
  unfold game_ok, first_game. simpl. split; [constructor|].
  split; [|done]. intros word H. by apply elem_of_nil in H.
Qed.

Lemma game_ok_score_le (game : SpellB) :
  game_ok game →
  best_possible_score game = sum_points game (word_list game) →
  (0 ≤ score game ≤ best_possible_score game)%Z.
Proof.
  intros (Hnd & Hin & Hs) Hb. rewrite Hs, Hb. split.
  - apply sum_points_nonneg.
  - apply sum_points_submseteq. by apply NoDup_submseteq.
Qed.

Section MainLoopProperties.
Context {rng : Type} `{!Runtime rng}.

(** A turn for a line that is no command. *)
Lemma loop_body_word (game : SpellB) (word : str) (g : rng) (value : Z)
    (message : str) :
  startswith word (py ":") = false →
  evaluate_word game word = Ok (value, message) →
  loop_body game word g
  = ([PrintResult value message],
     Ok (if (value =? 0)%Z then game
         else set_found_words (found_words game ++ [word])
                (set_score (score game + value) game), g)).
Proof.
  intros Hs He. unfold loop_body. rewrite Hs. unfold bind at 1.
  rewrite He. reflexivity.
Qed.

(** What a turn that returns did. *)
Lemma loop_body_Ok (game game' : SpellB) (user_input : str) (g g' : rng)
    (out : list event) :
  loop_body game user_input g = (out, Ok (game', g')) →
  (startswith user_input (py ":") = true
   ∧ execute_command game (tail user_input) g = (out, Ok (game', g')))
  ∨ (startswith user_input (py ":") = false
     ∧ ∃ value message,
         evaluate_word game user_input = Ok (value, message)
         ∧ game' = (if (value =? 0)%Z then game
                    else set_found_words (found_words game ++ [user_input])
                           (set_score (score game + value) game))
         ∧ g' = g ∧ out = [PrintResult value message]).
Proof.
  intros H. destruct (startswith user_input (py ":")) eqn:Hs.
  - left. unfold loop_body in H. rewrite Hs in H. by split.
  - right. split; [done|].
    destruct (evaluate_word game user_input) as [[value message]|e] eqn:E.
    + rewrite (loop_body_word _ _ _ _ _ Hs E) in H.
      injection H as <- <- <-. by exists value, message.
    + unfold loop_body in H. rewrite Hs in H. unfold bind at 1 in H.
      rewrite E in H. discriminate.
Qed.

(** The found words only grow, and the score with them. *)
Lemma loop_body_grows (game game' : SpellB) (user_input : str) (g g' : rng)
    (out : list event) :
  loop_body game user_input g = (out, Ok (game', g')) →
  found_words game `prefix_of` found_words game'
  ∧ (score game ≤ score game')%Z.
Proof.
  intros H. apply loop_body_Ok in H as [[_ H]|(_ & v & m & E & -> & _)].
  - apply execute_command_frame in H as (-> & -> & _). done.
  - pose proof (points_nonneg game user_input) as Hp. rewrite E in Hp.
    simpl in Hp. destruct (v =? 0)%Z; [done|]. simpl.
    split; [by apply prefix_app_r|lia].
Qed.

Lemma plays_grows (game0 game : SpellB) :
  plays game0 game →
  found_words game0 `prefix_of` found_words game
  ∧ (score game0 ≤ score game)%Z.
Proof.
  induction 1 as [|game game' line g g' out _ [IH1 IH2] _ Hb]; [done|].
  apply loop_body_grows in Hb as [H1 H2].
  split; [by etrans|lia].
Qed.

(** A turn keeps [game_ok]. *)
Lemma loop_body_game_ok (game game' : SpellB) (user_input : str) (g g' : rng)
    (out : list event) :
  game_ok game →
  loop_body game user_input g = (out, Ok (game', g')) →
  game_ok game'.
Proof.
  intros (Hnd & Hin & Hsc) H.
  apply loop_body_Ok in H as [[_ H]|(_ & v & m & E & -> & _)].
  - apply execute_command_frame in H as (Hf & Hs & Hw & _ & Hp).
    unfold game_ok. rewrite Hf, Hs, Hw. split; [done|]. split; [done|].
    rewrite Hsc. by apply sum_points_ext.
  - destruct (Z.eqb_spec v 0) as [|Hv]; [done|].
    apply evaluate_word_Ok in E as E'.
    destruct E' as [[? _]|(_ & _ & _ & Hw & Hf & _)]; [done|].
    unfold game_ok. simpl. split; [|split].
    + apply NoDup_app. split; [done|]. split; [|apply NoDup_singleton].
      intros x Hx Hx'. apply list_elem_of_singleton in Hx'. by subst.
    + intros word Hword. apply elem_of_app in Hword as [?|Hword]; [auto|].
      apply list_elem_of_singleton in Hword. by subst.
    + rewrite Hsc.
      set (game' := set_found_words _ _).
      assert (Hext : sum_points game' (found_words game ++ [user_input])
                     = sum_points game (found_words game ++ [user_input])).
      { apply sum_points_ext; [apply same_pool_refl|done]. }
      rewrite Hext, sum_points_app. f_equal.
      unfold sum_points. simpl.
      rewrite <- (evaluate_word_not_found game user_input Hf), E. simpl. lia.
Qed.

Lemma plays_game_ok (game0 game : SpellB) :
  game_ok game0 → plays game0 game → game_ok game.
Proof.
  intros H0. induction 1 as [|game game' line g g' out _ IH _ Hb]; [done|].
  by eapply loop_body_game_ok.
Qed.

(** [execute_command] looks at its token through [resolve] only. *)
Lemma execute_command_resolve (self : SpellB) (token token' : str) :
  resolve COMMANDS token = resolve COMMANDS token' →
  execute_command self token = execute_command self token'.
Proof. intros H. unfold execute_command. by rewrite H. Qed.

(** On a good pool a command returns or leaves with [sys.exit(0)]. *)
Lemma execute_command_safe (self : SpellB) (token : str) (g : rng) :
  pool_ok (letter_pool self) →
  (execute_command self token g = ([], Raise (SystemExit 0))
   ∧ resolve COMMANDS token = Selected (py "quit"))
  ∨ (∃ out self' g',
       execute_command self token g = (out, Ok (self', g'))
       ∧ pool_ok (letter_pool self')).
Proof.
  intros Hok.
  destruct (resolve COMMANDS token) as [|cands|chosen] eqn:Er.
  - right. unfold execute_command. rewrite Er. by eexists _, _, _.
  - right. unfold execute_command. rewrite Er. by eexists _, _, _.
  - destruct (decide (chosen = py "shuffle")) as [->|Hsh].
    { right.
      rewrite (execute_command_resolve self token (py "shuffle"))
        by (by rewrite Er).
      destruct (shuffle_ok self g Hok) as (c & p & p' & g' & E & Hx & Hp).
      eexists _, _, _. split; [exact Hx|]. simpl.
      rewrite E in Hok. eapply pool_ok_same_pool; [exact Hok|]. by split. }
    destruct (decide (chosen = py "quit")) as [->|Hq].
    { left. split; [|done].
      rewrite (execute_command_resolve self token (py "quit"))
        by (by rewrite Er).
      reflexivity. }
    right. unfold execute_command. rewrite Er.
    repeat case_bool_decide; try done;
      try rewrite (display_letter_pool_ok self) by done;
      try (by eexists _, _, _).
    all: unfold bind; rewrite (display_letter_pool_ok self) by done;
      by eexists _, _, _.
Qed.

(** On a good pool a turn returns, with a good pool, or leaves with
    [sys.exit(0)]: nothing else is raised. *)
Lemma loop_body_safe (game : SpellB) (user_input : str) (g : rng) :
  pool_ok (letter_pool game) →
  loop_body game user_input g = ([], Raise (SystemExit 0))
  ∨ (∃ out game' g',
       loop_body game user_input g = (out, Ok (game', g'))
       ∧ pool_ok (letter_pool game')).
Proof.
  intros Hok. destruct (startswith user_input (py ":")) eqn:Hs.
  - unfold loop_body. rewrite Hs.
    destruct (execute_command_safe game (tail user_input) g Hok)
      as [[E _]|H]; [by left|by right].
  - right.
    destruct (evaluate_word game user_input) as [[v m]|e] eqn:E.
    + rewrite (loop_body_word _ _ _ _ _ Hs E). eexists _, _, _.
      split; [done|]. by destruct (v =? 0)%Z.
    + apply evaluate_word_Raise in E as [E _].
      by apply pool_ok_nonempty in Hok.
Qed.

Lemma main_loop_safe (game : SpellB) (inputs : list str) (g : rng) :
  pool_ok (letter_pool game) →
  ∃ out,
    main_loop game inputs g = (out, Raise (SystemExit 0))
    ∨ (∃ game' g',
         main_loop game inputs g = (out, Ok (game', g'))
         ∧ plays game game'
         ∧ ∃ line, line ∈ inputs ∧ lower line = []).
Proof.
  revert game g. induction inputs as [|line rest IH]; intros game g Hok.
  - exists []. by left.
  - cbn [main_loop]. destruct (lower line) as [|c u] eqn:El.
    { exists []. right. exists game, g. split; [done|].
      split; [apply plays_start|]. exists line. split; [left|done]. }
    destruct (loop_body_safe game (c :: u) g Hok)
      as [E|(out1 & game1 & g1 & E & Hok1)].
    + exists []. left. unfold bind. by rewrite E.
    + destruct (IH game1 g1 Hok1) as [out2 [E2|(game' & g' & E2 & Hp & Hl)]].
      * exists (out1 ++ out2). left. unfold bind. by rewrite E, E2.
      * exists (out1 ++ out2). right. exists game', g'.
        split; [unfold bind; by rewrite E, E2|].
        split.
        -- clear E2 Hl. induction Hp as [|ga gb l ga' gb' o Hp IHp Hne Hb].
           ++ eapply (plays_turn _ _ _ line g g1 out1);
                [apply plays_start|by rewrite El|by rewrite El].
           ++ eapply plays_turn; [exact IHp|exact Hne|exact Hb].
        -- destruct Hl as (l & Hl & Hl'). exists l. split; [by right|done].
Qed.

End MainLoopProperties.

Section MainLoopTheorems.
Context {rng : Type} `{!Runtime rng}.

(** X4.  No command changes how a word is evaluated: after any command
    that returns, shuffle included, [evaluate_word] gives every word the
    result it gave before. *)
Theorem commands_keep_scoring (game game' : SpellB) (token : str)
    (g g' : rng) (out : list event) (word : str) :
  execute_command game token g = (out, Ok (game', g')) →
  evaluate_word game' word = evaluate_word game word.
Proof.
  intros H. apply execute_command_frame in H as (Hf & _ & Hw & _ & Hp).
  symmetry. by apply evaluate_word_same_pool.
Qed.

(** X11.  At every moment of a session the found words are different
    words of the word list, the score is the sum of the points that each
    of them earns on its own, and the score lies between 0 and the best
    possible score. *)
Theorem score_invariant (pool : option str) (text : str) (g g0 : rng)
    (out : list event) (game0 game : SpellB) :
  init pool text g = (out, Ok (game0, g0)) →
  plays game0 game →
  NoDup (found_words game)
  ∧ (∀ word, word ∈ found_words game → word ∈ word_list game)
  ∧ score game = sum_points game (found_words game)
  ∧ (0 ≤ score game ≤ best_possible_score game)%Z.
Proof.
  intros Hi Hp.
  pose proof (init_Ok _ _ _ _ _ _ Hi) as (_ & _ & _ & _ & Hb & _).
  apply init_first_game in Hi as (_ & E & _ & _).
  assert (Hok : game_ok game).
  { apply (plays_game_ok game0); [|done]. rewrite E.
    apply game_ok_first_game. }
  apply plays_frame in Hp as (Hw & Hbest & Hs).
  destruct Hok as (H1 & H2 & H3). split; [done|]. split; [done|].
  split; [done|]. apply game_ok_score_le; [done|].
  rewrite Hbest, Hb, Hw. by apply sum_points_ext.
Qed.

(** X12.  The found words only grow and the score never goes down: after
    any number of turns the earlier found words are a prefix of the later
    ones, and the earlier score is at most the later one. *)
Theorem found_words_grow (game0 game : SpellB) :
  plays game0 game →
  found_words game0 `prefix_of` found_words game
  ∧ (score game0 ≤ score game)%Z.
Proof. apply plays_grows. Qed.

(** X13.  A word scores once: the turn for a word that [evaluate_word]
    gives points adds the points to the score, appends the word to the
    found words and prints the result, and from then on, whatever is typed
    in between, the same word is rejected as already found. *)
Theorem accepted_word_scores_once (game : SpellB) (word : str) (value : Z)
    (message : str) (g : rng) :
  evaluate_word game word = Ok (value, message) →
  value ≠ 0%Z →
  loop_body game word g
  = ([PrintResult value message],
     Ok (set_found_words (found_words game ++ [word])
           (set_score (score game + value) game), g))
  ∧ ∀ game',
      plays (set_found_words (found_words game ++ [word])
               (set_score (score game + value) game)) game' →
      evaluate_word game' word = Ok (0%Z, AlreadyFound).
Proof.
  intros E Hv. pose proof E as E'.
  apply evaluate_word_Ok in E' as [[? _]|(Hm & (c & Hh & Hc) & Hl & Hw & _)];
    [done|].
  split.
  - rewrite (loop_body_word game word g value message); [|by apply matches_no_command|done].
    destruct (Z.eqb_spec value 0); [done|reflexivity].
  - intros game' Hp.
    pose proof (plays_grows _ _ Hp) as [Hpre _].
    apply plays_frame in Hp as (Hwl & _ & [Hhead _]). simpl in *.
    apply (evaluate_word_already_found game' word c); try done.
    + by rewrite Hhead.
    + by rewrite Hwl.
    + destruct Hpre as [k ->]. apply elem_of_app. left.
      apply elem_of_app. right. by apply list_elem_of_singleton.
Qed.

(** X14.  On a game with a good pool the main loop never fails: on any
    input it ends with [sys.exit(0)] (end of input or quit) or it ends by
    an empty line, and then in a game that the turns lead to. *)
Theorem main_loop_never_crashes (game : SpellB) (inputs : list str)
    (g : rng) :
  pool_ok (letter_pool game) →
  ∃ out,
    main_loop game inputs g = (out, Raise (SystemExit 0))
    ∨ (∃ game' g',
         main_loop game inputs g = (out, Ok (game', g'))
         ∧ plays game game'
         ∧ ∃ line, line ∈ inputs ∧ lower line = []).
Proof. apply main_loop_safe. Qed.

(** X15.  On a word file that was opened and read, with [text] its text,
    the main program ends in one of four ways: with [sys.exit(0)] or by an
    empty line once the game is set up; with [sys.exit(1)] and one printed
    line when a pool was given and is refused; with [ValueError] and
    nothing printed when no pool was given and the word file has no
    candidate.  No exception of the program's own code ([IndexError],
    [KeyError]) comes out of it. *)
Theorem main_outcomes (pool : option str) (text : str) (inputs : list str)
    (g : rng) :
  ∃ out,
    main pool text inputs g = (out, Raise (SystemExit 0))
    ∨ (∃ game g', main pool text inputs g = (out, Ok (game, g')))
    ∨ (main pool text inputs g = (out, Raise (SystemExit 1))
       ∧ (∃ letters, pool = Some letters ∧ letters ≠ [])
       ∧ (out = [PrintLine PoolInvalidCharacters]
          ∨ out = [PrintLine AmbiguousCenter]
          ∨ out = [PrintLine WrongLetterCount]))
    ∨ (main pool text inputs g = (out, Raise ValueError)
       ∧ (pool = None ∨ pool = Some [])
       ∧ out = []).
Proof.
  assert (Hgo : ∀ letters g1 out1,
    match pool with
    | None | Some [] => generate_letter_pool new_game text
    | Some pool => validate_letter_pool new_game pool
    end g = (out1, Ok (set_letter_pool letters new_game, g1)) →
    pool_ok letters →
    ∃ out,
      main pool text inputs g = (out, Raise (SystemExit 0))
      ∨ (∃ game g', main pool text inputs g = (out, Ok (game, g')))).
  { intros letters g1 out1 E Hok.
    pose proof (init_run pool text g g1 out1 letters E Hok) as Hi.
    destruct (main_loop_safe (first_game letters text) inputs g1 Hok)
      as [out2 [E2|(game' & g' & E2 & _)]].
    - eexists. left. unfold main, bind. by rewrite Hi, E2.
    - eexists. right. exists game', g'. unfold main, bind. by rewrite Hi, E2. }
  assert (Hgen : pool = None ∨ pool = Some [] →
    ∃ out,
      main pool text inputs g = (out, Raise (SystemExit 0))
      ∨ (∃ game g', main pool text inputs g = (out, Ok (game, g')))
      ∨ (main pool text inputs g = (out, Raise (SystemExit 1))
         ∧ (∃ letters, pool = Some letters ∧ letters ≠ [])
         ∧ (out = [PrintLine PoolInvalidCharacters]
            ∨ out = [PrintLine AmbiguousCenter]
            ∨ out = [PrintLine WrongLetterCount]))
      ∨ (main pool text inputs g = (out, Raise ValueError)
         ∧ (pool = None ∨ pool = Some [])
         ∧ out = [])).
  { intros Hp.
    destruct (generate_letter_pool_result new_game text g)
      as [E|(letters & g1 & E & Hok)].
    - exists []. right. right. right. split; [|by split].
      unfold main. unfold bind at 1. rewrite (init_fails pool text g [] ValueError); [done|].
      by destruct Hp as [-> | ->].
    - destruct (Hgo letters g1 []) as [out [H1|H1]]; try done.
      + by destruct Hp as [-> | ->].
      + exists out. by left.
      + exists out. right. by left. }
  destruct pool as [[|c p]|]; [apply Hgen; by right| |apply Hgen; by left].
  destruct (validate_letter_pool_rejects new_game (c :: p) g) as (R1 & R2 & R3).
  assert (Hfail : ∀ out1, validate_letter_pool new_game (c :: p) g
                          = (out1, Raise (SystemExit 1)) →
            main (Some (c :: p)) text inputs g = (out1, Raise (SystemExit 1))).
  { intros out1 E. unfold main. unfold bind at 1.
    by rewrite (init_fails (Some (c :: p)) text g out1 (SystemExit 1)). }
  destruct (isalpha (c :: p) && isascii (c :: p)) eqn:Ha.
  2:{ eexists. right. right. left. split; [apply Hfail, R1; done|].
      split; [by exists (c :: p)|by left]. }
  destruct (le_lt_dec (length (re_findall is_AZ (c :: p))) 1) as [Hc|Hc].
  2:{ eexists. right. right. left. split; [apply Hfail, R2; done|].
      split; [by exists (c :: p)|right; by left]. }
  destruct (decide (size (list_to_set (lower (c :: p)) : gset ascii) = 7%nat))
    as [Hs|Hs].
  2:{ eexists. right. right. left. split; [apply Hfail, R3; done|].
      split; [by exists (c :: p)|right; by right]. }
  destruct (validate_letter_pool_accepts new_game (c :: p) g Ha Hc Hs)
    as (center & petals & E & _).
  pose proof (validate_letter_pool_pool_ok _ _ _ _ _ _ E) as Hok.
  destruct (Hgo (center :: petals) g [] E Hok) as [out [H1|H1]].
  - exists out. by left.
  - exists out. right. by left.
Qed.

(** X16.  The game does not tell upper case from lower case: the main loop
    does on the lines in lower case what it does on the lines as typed. *)
Theorem input_case_insensitive (game : SpellB) (inputs : list str) (g : rng) :
  main_loop game (map lower inputs) g = main_loop game inputs g.
Proof.
  revert game g. induction inputs as [|line rest IH]; intros game g; [done|].
  cbn [map main_loop]. rewrite lower_idemp.
  destruct (lower line) as [|c u]; [done|].
  unfold bind. destruct (loop_body game (c :: u) g) as [out [[game1 g1]|e]];
    [|done].
  by rewrite IH.
Qed.

(** X18.  Every command but shuffle is read-only: when a token does not
    resolve to shuffle and the command returns, the game and the state of
    the random module are what they were. *)
Theorem commands_are_read_only (self self' : SpellB) (token : str)
    (g g' : rng) (out : list event) :
  resolve COMMANDS token ≠ Selected (py "shuffle") →
  execute_command self token g = (out, Ok (self', g')) →
  self' = self ∧ g' = g.
Proof.
  unfold execute_command. intros Hr H.
  destruct (resolve COMMANDS token) as [|cands|chosen].
  - unfold bind, print, ret in H. by injection H as _ <- <-.
  - unfold bind, print, ret in H. by injection H as _ <- <-.
  - repeat case_bool_decide; subst; try done;
      unfold bind, print, ret, sys_exit, raise in H; try discriminate;
      try (by injection H as _ <- <-).
    all: destruct (display_letter_pool self g) as [o [[[] g1]|e]] eqn:Ed;
      try discriminate;
      apply display_letter_pool_Ok in Ed as [-> _];
      by injection H as _ <- <-.
Qed.

End MainLoopTheorems.

(** ** Commands by name *)

Lemma visible_matches_sublist (commands : list command) (token : str) :
  visible_matches commands token `sublist_of` visible_names commands.
Proof.
  unfold visible_matches, visible_names. apply (fmap_sublist name).
  induction commands as [|c commands IH]; [done|]. simpl.
  destruct (hidden c); simpl.
  - done.
  - destruct (startswith (name c) token).
    + by apply sublist_skip.
    + by apply sublist_cons.
Qed.

Lemma prefix_free_elem (commands : list command) (c1 c2 : command) :
  prefix_free commands = true →
  c1 ∈ commands → c2 ∈ commands →
  hidden c1 = false → hidden c2 = false →
  name c1 `prefix_of` name c2 →
  name c1 = name c2.
Proof.
  unfold prefix_free. rewrite forallb_forall. intros H H1 H2 Hh1 Hh2 Hp.
  apply list_elem_of_In in H1, H2. specialize (H c1 H1).
  rewrite forallb_forall in H. specialize (H c2 H2).
  rewrite Hh1, Hh2 in H. simpl in H.
  apply startswith_prefix in Hp. rewrite Hp in H. simpl in H.
  by apply bool_decide_eq_true in H.
Qed.

(** A list without duplicates whose elements are all the same has at
    most one element. *)
Lemma NoDup_constant {A : Type} (x : A) (l : list A) :
  NoDup l → (∀ y, y ∈ l → y = x) → x ∈ l → l = [x].
Proof.
  intros Hn Hall Hx. destruct l as [|a [|b l]].
  - by apply elem_of_nil in Hx.
  - by rewrite (Hall a) by apply list_elem_of_here.
  - exfalso. apply NoDup_cons in Hn as [Hn _]. apply Hn.
    rewrite (Hall a) by apply list_elem_of_here.
    rewrite <- (Hall b) at 1
      by (apply list_elem_of_further, list_elem_of_here).
    apply list_elem_of_here.
Qed.

(** X17.  A command is always reached by its full name: when no visible
    command name is the prefix of another one and no visible name occurs
    twice, as in [COMMANDS], the name of any command of the list, hidden
    or not, selects that command. *)
Theorem full_name_selects (commands : list command) (c : command) :
  prefix_free commands = true →
  NoDup (visible_names commands) →
  c ∈ commands →
  resolve commands (name c) = Selected (name c).
Proof.
  intros Hpf Hnd Hin. rewrite resolve_spec.
  destruct (hidden_match commands (name c)) eqn:Hm; [done|].
  destruct (hidden c) eqn:Hh.
  { assert (hidden_match commands (name c) = true) as Hm'
      by (apply hidden_match_true; by exists c).
    congruence. }
  rewrite (NoDup_constant (name c) (visible_matches commands (name c))); [done| | |].
  - eapply sublist_NoDup; [done|apply visible_matches_sublist].
  - intros y Hy. apply visible_matches_elem in Hy
      as (c2 & Hin2 & Hh2 & <- & Hp).
    symmetry. by apply (prefix_free_elem commands c c2).
  - apply visible_matches_elem. by exists c.
Qed.

Lemma full_name_selects_witness :
  resolve COMMANDS (py "show") = Selected (py "show").
Proof.
  refine (full_name_selects COMMANDS (Command (py "show") false) _ _ _).
  - vm_compute. reflexivity.
  - unfold visible_names, COMMANDS, py. cbn.
    repeat (apply NoDup_cons; split;
            [intros Hc; repeat (apply elem_of_cons in Hc as [Hc|Hc];
                                [discriminate|]);
             by apply elem_of_nil in Hc|]).
    apply NoDup_nil_2.
  - unfold COMMANDS. set_solver.
Defined.

Section QuitCommand.
Context {rng : Type} `{!Runtime rng}.

(** X20.  The game is left by [:quit] or any beginning of it, in upper or
    lower case: the program ends with [sys.exit(0)], prints nothing for the
    line and reads no further line. *)
Theorem quit_prefix_exits (game : SpellB) (token line : str)
    (rest : list str) (g : rng) :
  token ≠ [] →
  token `prefix_of` py "quit" →
  lower line = py ":" ++ token →
  main_loop game (line :: rest) g = ([], Raise (SystemExit 0)).
Proof.
  intros Hne [k Hk] Hl. cbn [main_loop]. rewrite Hl.
  destruct token as [|a [|b [|c [|d [|e t]]]]]; [done| | | | |];
    unfold py in Hk; simpl in Hk; injection Hk as; subst;
    try discriminate; reflexivity.
Qed.

End QuitCommand.

(** The example session again. *)
Lemma commands_keep_scoring_witness :
  evaluate_word (set_letter_pool (py "trnaies") example_game0) (py "tears")
  = evaluate_word example_game0 (py "tears").
Proof.
  refine (@commands_keep_scoring unit fixed_runtime example_game0 _
            (py "shuffle") tt tt _ (py "tears") _).
  vm_compute. reflexivity.
Defined.

Lemma score_invariant_witness :
  NoDup (found_words example_game)
  ∧ (∀ word, word ∈ found_words example_game → word ∈ word_list example_game)
  ∧ score example_game = sum_points example_game (found_words example_game)
  ∧ (0 ≤ score example_game ≤ best_possible_score example_game)%Z.
Proof.
  exact (@score_invariant unit fixed_runtime _ _ _ _ _ _ _
           example_init example_plays).
Defined.

Lemma found_words_grow_witness :
  found_words example_game0 `prefix_of` found_words example_game
  ∧ (score example_game0 ≤ score example_game)%Z.
Proof.
  exact (@found_words_grow unit fixed_runtime _ _ example_plays).
Defined.

Lemma accepted_word_scores_once_witness :
  @loop_body unit fixed_runtime example_game0 (py "retains") tt
  = ([PrintResult 14 Pangram],
     Ok (set_found_words (found_words example_game0 ++ [py "retains"])
           (set_score (score example_game0 + 14) example_game0), tt))
  ∧ ∀ game',
      @plays unit fixed_runtime
        (set_found_words (found_words example_game0 ++ [py "retains"])
           (set_score (score example_game0 + 14) example_game0)) game' →
      evaluate_word game' (py "retains") = Ok (0%Z, AlreadyFound).
Proof.
  apply (@accepted_word_scores_once unit fixed_runtime).
  - vm_compute. reflexivity.
  - discriminate.
Defined.

Lemma main_loop_never_crashes_witness :
  ∃ out,
    @main_loop unit fixed_runtime example_game0 [py "Tears"; py ":SHUFFLE"] tt
      = (out, Raise (SystemExit 0))
    ∨ (∃ game' g',
         @main_loop unit fixed_runtime example_game0
           [py "Tears"; py ":SHUFFLE"] tt = (out, Ok (game', g'))
         ∧ @plays unit fixed_runtime example_game0 game'
         ∧ ∃ line, line ∈ [py "Tears"; py ":SHUFFLE"] ∧ lower line = []).
Proof.
  apply (@main_loop_never_crashes unit fixed_runtime).
  vm_compute. repeat split.
  - repeat (apply NoDup_cons; split;
            [intros Hc; repeat (apply elem_of_cons in Hc as [Hc|Hc];
                                [discriminate|]);
             by apply elem_of_nil in Hc|]).
    apply NoDup_nil_2.
  - repeat constructor.
Defined.

Lemma commands_are_read_only_witness :
  example_game0 = example_game0 ∧ tt = tt.
Proof.
  refine (@commands_are_read_only unit fixed_runtime example_game0 _
            (py "sc") tt tt [PrintScore 0] _ _).
  - vm_compute. discriminate.
  - vm_compute. reflexivity.
Defined.

Lemma quit_prefix_exits_witness :
  @main_loop unit fixed_runtime example_game0 [py ":Q"; py "tears"] tt
  = ([], Raise (SystemExit 0)).
Proof.
  apply (@quit_prefix_exits unit fixed_runtime _ (py "q")).
  - discriminate.
  - by exists (py "uit").
  - vm_compute. reflexivity.
Defined.
